(** * bitcoinlib.transactions: a shallow embedding and its verification

    The development follows [bitcoinlib/transactions.py]:
    [deserialize_transaction], [parse_script_sig], the classes [Input]
    and [Transaction] with [import_raw], [input_addresses], [raw] and
    [verify].

    Python [bytes] are lists of [byte], indexed and sliced as Python 3
    does; Python exceptions are values of [exn] carried on the left of a
    sum; collaborators that live outside the file (the [Key] class, the
    DER routine, SHA-256 and the ecdsa package) are variables of a
    section.  What the logger is told is not part of the model. *)

From Stdlib Require Import String Ascii NArith ZArith Lia Bool List.
From Stdlib.Strings Require Import Byte.
From Stdlib Require Import PeanoNat.
Import ListNotations.

(** ** Exceptions and the error monad *)

(** [IndexError], [struct.error] and [binascii.Error] are Python's;
    [TransactionError] is the exception class of the file; [FormatError]
    is what the specification calls the failure of the VarInt codec;
    [ExternalError] is whatever a collaborator raises. *)
Inductive exn : Type :=
| IndexError
| StructError
| BinasciiError
| TransactionError (msg : string)
| FormatError (msg : string)
| ExternalError (origin : string).

Definition result (A : Type) : Type := (exn + A)%type.

Definition ret {A : Type} (a : A) : result A := inr a.

Definition raise {A : Type} (e : exn) : result A := inl e.

Definition bind {A B : Type} (m : result A) (k : A -> result B) : result B :=
  match m with
  | inl e => inl e
  | inr a => k a
  end.

Declare Scope py_scope.
Delimit Scope py_scope with py.
Notation "x <- m ;; k" := (bind m (fun x => k))
  (at level 61, m at next level, right associativity) : py_scope.
Notation "' p <- m ;; k" := (bind m (fun x => match x with p => k end))
  (at level 61, p pattern, m at next level, right associativity) : py_scope.
Open Scope py_scope.

(** ** Byte strings *)

Definition bytes : Type := list byte.

(** [s[a:b]] for non-negative [a] and [b]: never raises, shortens
    silently at the end of [s]. *)
Definition slice (s : bytes) (a b : nat) : bytes := firstn (b - a) (skipn a s).

(** [s[k]] for a non-negative [k]: an [IndexError] out of range. *)
Definition index (s : bytes) (k : nat) : result nat :=
  match nth_error s k with
  | Some b => ret (N.to_nat (Byte.to_N b))
  | None => raise IndexError
  end.

Definition byte_of_N (n : N) : byte :=
  match Byte.of_N (n mod 256) with
  | Some b => b
  | None => x00
  end.

(** Little-endian digits, [w] of them. *)
Fixpoint to_le (w : nat) (n : N) : bytes :=
  match w with
  | O => []
  | S w' => byte_of_N n :: to_le w' (n / 256)
  end.

Fixpoint from_le (bs : bytes) : N :=
  match bs with
  | [] => 0
  | b :: t => Byte.to_N b + 256 * from_le t
  end.

(** ** binascii *)

Definition hex_digit (n : N) : ascii :=
  if (n <? 10)%N then ascii_of_N (48 + n) else ascii_of_N (87 + n).

Fixpoint hexlify (bs : bytes) : string :=
  match bs with
  | [] => EmptyString
  | b :: t =>
      String (hex_digit (Byte.to_N b / 16))
        (String (hex_digit (Byte.to_N b mod 16)) (hexlify t))
  end.

Definition hex_value (c : ascii) : option N :=
  let n := N_of_ascii c in
  if ((48 <=? n) && (n <=? 57))%N then Some (n - 48)%N
  else if ((97 <=? n) && (n <=? 102))%N then Some (n - 87)%N
  else if ((65 <=? n) && (n <=? 70))%N then Some (n - 55)%N
  else None.

Fixpoint unhexlify (s : string) : result bytes :=
  match s with
  | EmptyString => ret []
  | String _ EmptyString => raise BinasciiError
  | String c1 (String c2 t) =>
      match hex_value c1, hex_value c2 with
      | Some h, Some l =>
          r <- unhexlify t ;; ret (byte_of_N (16 * h + l) :: r)
      | _, _ => raise BinasciiError
      end
  end.

(** ** struct.pack *)

Definition pack_B (n : nat) : result bytes :=
  if n <? 256 then ret [byte_of_N (N.of_nat n)] else raise StructError.

Definition pack_Q (n : Z) : result bytes :=
  if ((0 <=? n) && (n <? 2 ^ 64))%Z then ret (to_le 8 (Z.to_N n))
  else raise StructError.

Definition pack_L (n : Z) : result bytes :=
  if ((0 <=? n) && (n <? 2 ^ 32))%Z then ret (to_le 4 (Z.to_N n))
  else raise StructError.

(** ** bitcoinlib.encoding *)

(** Modelled from the spec: [bitcoinlib.encoding.change_base] is imported
    by the file and not part of it.  The decoder only calls it as
    [change_base(x, 256, 10)], on a byte string it has just reversed, to
    read a little-endian field: the argument is taken as big-endian
    base-256 digits and the integer is returned. *)
Definition change_base_256_10 (bs : bytes) : N :=
  fold_left (fun acc b => (acc * 256 + Byte.to_N b)%N) bs 0%N.

Definition varint_truncated : string := "VarInt: truncated data".

(** Modelled from the spec: [bitcoinlib.encoding.varbyteint_to_int] is
    imported by the file and not part of it.  The first byte determines
    the width: 0..252 are literal, 253 is followed by a little-endian
    16-bit value, 254 by a 32-bit value, 255 by a 64-bit value; the call
    fails when fewer bytes remain than the selected width requires.  The
    result is the value and the number of bytes consumed. *)
Definition varbyteint_to_int (byteint : bytes) : result (N * nat) :=
  match byteint with
  | [] => raise (FormatError varint_truncated)
  | b :: rest =>
      let ni := Byte.to_N b in
      if (ni <? 253)%N then ret (ni, 1)
      else
        let size := if (ni =? 253)%N then 2 else if (ni =? 254)%N then 4 else 8 in
        if length rest <? size then raise (FormatError varint_truncated)
        else ret (from_le (firstn size rest), size + 1)
  end.

(** Modelled from the spec: [bitcoinlib.encoding.int_to_varbyteint] is
    imported by the file and not part of it.  It is the inverse mapping
    on unsigned 64-bit values and always chooses the minimal width.  Of a
    larger number, outside its type, the low 64 bits are written. *)
Definition int_to_varbyteint (n : N) : bytes :=
  if (n <? 253)%N then [byte_of_N n]
  else if (n <? 2 ^ 16)%N then xfd :: to_le 2 n
  else if (n <? 2 ^ 32)%N then xfe :: to_le 4 n
  else xff :: to_le 8 n.

(** ** The data model *)

Record Input : Type := mkInput {
  id : nat;
  prev_hash : bytes;
  output_index : bytes;
  script_sig : bytes;
  sequence : bytes
}.

Record Output : Type := mkOutput {
  amount : Z;
  script : bytes
}.

Record Transaction : Type := mkTransaction {
  inputs : list Input;
  outputs : list Output;
  locktime : Z;
  version : bytes
}.

(** ** deserialize_transaction *)

Definition hash_not_found : string :=
  "Input transaction hash not found. Probably malformed raw transaction".

(** The two numbers of this message are left as they stand in the format
    string. *)
Definition inputs_mismatch : string :=
  "Error parsing inputs. Number of tx specified %d but %d found".

Definition no_outputs : string :=
  "Error no outputs found in this transaction".

(** One turn of [for i in range(0, n_inputs)] at the loop index [i]: the
    input read and the cursor after it. *)
Definition parse_input (rawtx : bytes) (i cursor : nat) : result (Input * nat) :=
  let inp_hash := rev (slice rawtx cursor (cursor + 32)) in
  if length inp_hash =? 0 then raise (TransactionError hash_not_found)
  else
    let inp_index := rev (slice rawtx (cursor + 32) (cursor + 36)) in
    let cursor := cursor + 36 in
    '(scriptsig_size, size) <- varbyteint_to_int (slice rawtx cursor (cursor + 9)) ;;
    let cursor := cursor + size in
    let scriptsig := slice rawtx cursor (cursor + N.to_nat scriptsig_size) in
    let cursor := cursor + N.to_nat scriptsig_size in
    let sequence_number := slice rawtx cursor (cursor + 4) in
    let cursor := cursor + 4 in
    ret (mkInput i inp_hash inp_index scriptsig sequence_number, cursor).

(** [for i in range(0, n_inputs)]: [n] turns remain, [i] is the loop
    index, [inputs] the list appended to. *)
Fixpoint parse_inputs (rawtx : bytes) (n i cursor : nat) (inputs : list Input)
  : result (list Input * nat) :=
  match n with
  | O => ret (inputs, cursor)
  | S n' =>
      '(inp, cursor) <- parse_input rawtx i cursor ;;
      parse_inputs rawtx n' (S i) cursor (inputs ++ [inp])
  end.

(** One turn of [for o in range(0, n_outputs)]. *)
Definition parse_output (rawtx : bytes) (cursor : nat) : result (Output * nat) :=
  let amount := Z.of_N (change_base_256_10 (rev (slice rawtx cursor (cursor + 8)))) in
  let cursor := cursor + 8 in
  '(script_size, size) <- varbyteint_to_int (slice rawtx cursor (cursor + 9)) ;;
  let cursor := cursor + size in
  let script := slice rawtx cursor (cursor + N.to_nat script_size) in
  let cursor := cursor + N.to_nat script_size in
  ret (mkOutput amount script, cursor).

Fixpoint parse_outputs (rawtx : bytes) (n cursor : nat) (outputs : list Output)
  : result (list Output * nat) :=
  match n with
  | O => ret (outputs, cursor)
  | S n' =>
      '(out, cursor) <- parse_output rawtx cursor ;;
      parse_outputs rawtx n' cursor (outputs ++ [out])
  end.

Definition deserialize_transaction (rawtx : bytes)
  : result (list Input * list Output * Z * bytes) :=
  let version := rev (slice rawtx 0 4) in
  '(n_inputs, size) <- varbyteint_to_int (slice rawtx 4 13) ;;
  let cursor := 4 + size in
  '(inputs, cursor) <- parse_inputs rawtx (N.to_nat n_inputs) 0 cursor [] ;;
  if negb (length inputs =? N.to_nat n_inputs)
  then raise (TransactionError inputs_mismatch)
  else
    '(n_outputs, size) <- varbyteint_to_int (slice rawtx cursor (cursor + 9)) ;;
    let cursor := cursor + size in
    '(outputs, cursor) <- parse_outputs rawtx (N.to_nat n_outputs) cursor [] ;;
    match outputs with
    | [] => raise (TransactionError no_outputs)
    | _ :: _ =>
        let locktime := Z.of_N (change_base_256_10 (rev (slice rawtx cursor (cursor + 4)))) in
        ret (inputs, outputs, locktime, version)
    end.

(** ** Transaction.import_raw *)

Inductive pyvalue : Type :=
| PyStr (s : string)
| PyBytes (b : bytes)
| PyOther.

Definition bad_raw_type : string :=
  "Raw Transaction must be of type bytes or str".

Definition import_raw (rawtx : pyvalue) : result Transaction :=
  rawtx <- match rawtx with
           | PyStr s => unhexlify s
           | PyBytes b => ret b
           | PyOther => raise (TransactionError bad_raw_type)
           end ;;
  '(inputs, outputs, locktime, version) <- deserialize_transaction rawtx ;;
  ret (mkTransaction inputs outputs locktime version).

(** ** The collaborators and the code that calls them

    [convert_der_sig] comes from [bitcoinlib.encoding], [Key] from
    [bitcoinlib.keys], the hash from [hashlib] and the curve arithmetic
    from the [ecdsa] package.  Each may raise.

    - [Key_hash160 h] is [Key(h, compressed=False).hash160()];
    - [Key_public_uncompressed h] is [Key(h).public_uncompressed()];
    - [VerifyingKey_from_string b] is
      [ecdsa.VerifyingKey.from_string(b, curve=ecdsa.SECP256k1)];
    - [verify_digest vk s d] is [vk.verify_digest(s, d)]. *)

Section Collaborators.

Variable convert_der_sig : bytes -> result string.
Variable Key_hash160 : string -> result string.
Variable Key_public_uncompressed : string -> result string.
Variable sha256 : bytes -> bytes.
Variable VerifyingKey : Type.
Variable VerifyingKey_from_string : bytes -> result VerifyingKey.
Variable verify_digest : VerifyingKey -> bytes -> bytes -> result bool.

Definition parse_script_sig (s : bytes) : result (string * bytes) :=
  l <- index s 0 ;;
  sig <- convert_der_sig (slice s 1 l) ;;
  l2 <- index s (l + 1) ;;
  let public_key := slice s (l + 2) (l + l2 + 2) in
  ret (sig, public_key).

(** The loop of [input_addresses] with [return_type='hash160'], the only
    way the file calls it. *)
Fixpoint input_addresses_loop (ins : list Input) (r : list string)
  : result (list string) :=
  match ins with
  | [] => ret r
  | i :: rest =>
      let s := script_sig i in
      l <- index s 0 ;;
      l2 <- index s (l + 1) ;;
      let public_key := hexlify (slice s (l + 2) (l + l2 + 2)) in
      h <- Key_hash160 public_key ;;
      input_addresses_loop rest (r ++ [h])
  end.

(** [self.input_addresses(id=k)]: the whole list is computed, then [r[k]]. *)
Definition input_addresses (T : Transaction) (k : nat) : result string :=
  r <- input_addresses_loop (inputs T) [] ;;
  match nth_error r k with
  | Some a => ret a
  | None => raise IndexError
  end.

(** The loop over [self.inputs] in [raw]; [r] is the buffer built so far. *)
Fixpoint raw_inputs (T : Transaction) (sign_id : option nat)
  (ins : list Input) (r : bytes) : result bytes :=
  match ins with
  | [] => ret r
  | i :: rest =>
      let r := r ++ (rev (prev_hash i) ++ rev (output_index i)) in
      r <- match sign_id with
           | None =>
               p <- pack_B (length (script_sig i)) ;;
               ret (r ++ (p ++ script_sig i))
           | Some k =>
               if k =? id i then
                 a <- input_addresses T (id i) ;;
                 h <- unhexlify a ;;
                 ret (r ++ ([x19; x76; xa9; x14] ++ h ++ [x88; xac]))
               else ret (r ++ [x00])
           end ;;
      raw_inputs T sign_id rest (r ++ sequence i)
  end.

(** The loop over [self.outputs] in [raw]. *)
Fixpoint raw_outputs (outs : list Output) (r : bytes) : result bytes :=
  match outs with
  | [] => ret r
  | o :: rest =>
      q <- pack_Q (amount o) ;;
      let r := r ++ q in
      p <- pack_B (length (script o)) ;;
      raw_outputs rest (r ++ (p ++ script o))
  end.

Definition raw (T : Transaction) (sign_id : option nat) : result bytes :=
  let r := rev (version T) in
  let r := r ++ int_to_varbyteint (N.of_nat (length (inputs T))) in
  r <- raw_inputs T sign_id (inputs T) r ;;
  let r := r ++ int_to_varbyteint (N.of_nat (length (outputs T))) in
  r <- raw_outputs (outputs T) r ;;
  l <- pack_L (locktime T) ;;
  let r := r ++ l in
  match sign_id with
  | Some _ => ret (r ++ [x01; x00; x00; x00])
  | None => ret r
  end.

(** The body of the loop of [verify] for the input [i]: [inr true] when
    the loop goes on, [inr false] for [return False], [inl e] when [e]
    leaves [verify].  Only the call of [verify_digest], with the
    [unhexlify] of its argument, stands inside the [try]; the value it
    returns is not looked at. *)
Definition verify_input (T : Transaction) (i : Input) : result bool :=
  t_to_sign <- raw T (Some (id i)) ;;
  let hashtosign := sha256 (sha256 t_to_sign) in
  '(signature, pub_key) <- parse_script_sig (script_sig i) ;;
  pub_key <- (if length pub_key =? 33
              then h <- Key_public_uncompressed (hexlify pub_key) ;; unhexlify h
              else ret pub_key) ;;
  vk <- VerifyingKey_from_string (skipn 1 pub_key) ;;
  match (s <- unhexlify signature ;; verify_digest vk s hashtosign) with
  | inl _ => ret false
  | inr _ => ret true
  end.

Fixpoint verify_loop (T : Transaction) (ins : list Input) : result bool :=
  match ins with
  | [] => ret true
  | i :: rest =>
      ok <- verify_input T i ;;
      if ok then verify_loop T rest else ret false
  end.

Definition verify (T : Transaction) : result bool :=
  verify_loop T (inputs T).

(** The two parts of the body of the loop: what runs before the [try],
    and what runs inside it. *)
Definition verify_prepare (T : Transaction) (i : Input)
  : result (VerifyingKey * string * bytes) :=
  t_to_sign <- raw T (Some (id i)) ;;
  let hashtosign := sha256 (sha256 t_to_sign) in
  '(signature, pub_key) <- parse_script_sig (script_sig i) ;;
  pub_key <- (if length pub_key =? 33
              then h <- Key_public_uncompressed (hexlify pub_key) ;; unhexlify h
              else ret pub_key) ;;
  vk <- VerifyingKey_from_string (skipn 1 pub_key) ;;
  ret (vk, signature, hashtosign).

Definition verify_check (x : VerifyingKey * string * bytes) : result bool :=
  let '(vk, signature, hashtosign) := x in
  s <- unhexlify signature ;; verify_digest vk s hashtosign.

End Collaborators.

(** ** Definitions used to state the properties *)

(** [id] reassigned by position, from [k] on: what the decoder does. *)
Fixpoint renumber (k : nat) (ins : list Input) : list Input :=
  match ins with
  | [] => []
  | i :: rest =>
      mkInput k (prev_hash i) (output_index i) (script_sig i) (sequence i)
        :: renumber (S k) rest
  end.

Definition valid_input (i : Input) : bool :=
  (length (prev_hash i) =? 32) && (length (output_index i) =? 4)
  && (length (sequence i) =? 4).

Definition valid_output (o : Output) : bool :=
  ((0 <=? amount o) && (amount o <? 2 ^ 64))%Z.

(** Valid field values: byte widths, ranges, and counts that fit the
    64 bits of a VarInt. *)
Definition valid_fields (T : Transaction) : bool :=
  (length (version T) =? 4)
  && forallb valid_input (inputs T)
  && forallb valid_output (outputs T)
  && ((0 <=? locktime T) && (locktime T <? 2 ^ 32))%Z
  && (N.of_nat (length (inputs T)) <? 2 ^ 64)%N
  && (N.of_nat (length (outputs T)) <? 2 ^ 64)%N.

(** Every unlocking and locking script is shorter than 253 bytes. *)
Definition short_scripts (T : Transaction) : bool :=
  forallb (fun i => length (script_sig i) <? 253) (inputs T)
  && forallb (fun o => length (script o) <? 253) (outputs T).

(** The ids are the positions in the list. *)
Definition positional_ids (T : Transaction) : bool :=
  if list_eq_dec Nat.eq_dec (map id (inputs T)) (seq 0 (length (inputs T)))
  then true else false.

(** [f] applied to every element in turn, the results concatenated; the
    first exception ends it. *)
Fixpoint collect {A : Type} (f : A -> result bytes) (l : list A) : result bytes :=
  match l with
  | [] => ret []
  | a :: t => x <- f a ;; r <- collect f t ;; ret (x ++ r)
  end.

(** The layout of an encoding in the words of the specification: version,
    input count, every input with its script field, output count, every
    output, locktime, and a suffix. *)
Definition encode_layout (T : Transaction) (script_field : Input -> result bytes)
  (suffix : bytes) : result bytes :=
  ins <- collect (fun i =>
           f <- script_field i ;;
           ret (rev (prev_hash i) ++ rev (output_index i) ++ f ++ sequence i))
         (inputs T) ;;
  outs <- collect (fun o =>
            q <- pack_Q (amount o) ;;
            p <- pack_B (length (script o)) ;;
            ret (q ++ p ++ script o))
          (outputs T) ;;
  l <- pack_L (locktime T) ;;
  ret (rev (version T) ++ int_to_varbyteint (N.of_nat (length (inputs T))) ++ ins
       ++ int_to_varbyteint (N.of_nat (length (outputs T))) ++ outs ++ l ++ suffix).

(** The script field of the full mode as [raw] writes it. *)
Definition full_field (i : Input) : result bytes :=
  p <- pack_B (length (script_sig i)) ;; ret (p ++ script_sig i).

(** A script behind the VarInt of its length. *)
Definition varint_prefixed (s : bytes) : bytes :=
  int_to_varbyteint (N.of_nat (length s)) ++ s.

Definition sighash_all : bytes := [x01; x00; x00; x00].

(** The hash160, in hexadecimal, of the public key recovered from the
    input's own unlocking script. *)
Definition hash160_hex (Key_hash160 : string -> result string) (i : Input)
  : result string :=
  let s := script_sig i in
  l <- index s 0 ;;
  l2 <- index s (l + 1) ;;
  Key_hash160 (hexlify (slice s (l + 2) (l + l2 + 2))).

(** The same as bytes. *)
Definition own_hash160 (Key_hash160 : string -> result string) (i : Input)
  : result bytes :=
  a <- hash160_hex Key_hash160 i ;; unhexlify a.

Definition is_ok {A : Type} (m : result A) : bool :=
  match m with
  | inr _ => true
  | inl _ => false
  end.

(** The key hash of every input can be recovered. *)
Definition keys_recovered (Key_hash160 : string -> result string) (T : Transaction)
  : bool :=
  forallb (fun i => is_ok (hash160_hex Key_hash160 i)) (inputs T).

(** The script field that [raw] writes for the input [i]. *)
Definition raw_field (Key_hash160 : string -> result string) (T : Transaction)
  (sign_id : option nat) (i : Input) : result bytes :=
  match sign_id with
  | None => p <- pack_B (length (script_sig i)) ;; ret (p ++ script_sig i)
  | Some k =>
      if k =? id i then
        a <- input_addresses Key_hash160 T (id i) ;;
        h <- unhexlify a ;;
        ret ([x19; x76; xa9; x14] ++ h ++ [x88; xac])
      else ret [x00]
  end.

(** The script field of the signing mode in the words of the
    specification. *)
Definition sign_field (Key_hash160 : string -> result string) (k : nat) (i : Input)
  : result bytes :=
  if k =? id i then
    h <- own_hash160 Key_hash160 i ;;
    ret ([x19; x76; xa9; x14] ++ h ++ [x88; xac])
  else ret [x00].

(** The number of inputs, of at most [n], read from [cursor] on that end
    inside the buffer. *)
Fixpoint full_inputs (rawtx : bytes) (n i cursor : nat) : nat :=
  match n with
  | O => 0
  | S n' =>
      match parse_input rawtx i cursor with
      | inr (_, cursor') =>
          if cursor' <=? length rawtx
          then S (full_inputs rawtx n' (S i) cursor')
          else 0
      | inl _ => 0
      end
  end.

(** The two errors of a buffer that ends too early. *)
Definition truncation_error (e : exn) : Prop :=
  e = TransactionError hash_not_found \/ e = FormatError varint_truncated.

(** A push length of the unlocking script that reaches past its end:
    [len1] at offset 0, or [len2] behind the signature. *)
Definition push_exceeds (s : bytes) : bool :=
  match index s 0 with
  | inr l =>
      (length s - 1 <? l)
      || match index s (l + 1) with
         | inr l2 => length s - (l + 2) <? l2
         | inl _ => false
         end
  | inl _ => false
  end.

(** The bytes of one input and of one output in the full mode, when the
    script is at most 255 bytes long. *)
Definition enc_input (i : Input) : bytes :=
  rev (prev_hash i) ++ rev (output_index i)
  ++ (byte_of_N (N.of_nat (length (script_sig i))) :: script_sig i) ++ sequence i.

Definition enc_output (o : Output) : bytes :=
  to_le 8 (Z.to_N (amount o))
  ++ byte_of_N (N.of_nat (length (script o))) :: script o.

(** ** Input.json, Transaction.get and the constructors *)

(** The dictionary that [Input.json] returns. *)
Record InputJson : Type := mkInputJson {
  json_prev_hash : string;
  json_output_index : string;
  json_script_sig : string;
  json_sequence : string
}.

Definition json (i : Input) : InputJson :=
  mkInputJson (hexlify (prev_hash i)) (hexlify (output_index i))
    (hexlify (script_sig i)) (hexlify (sequence i)).

(** The dictionary that [Transaction.get] returns. *)
Record TransactionJson : Type := mkTransactionJson {
  get_inputs : list InputJson;
  get_outputs : list Output;
  get_locktime : Z
}.

(** The loop of [get] appends [i.json()] for every input in turn. *)
Definition get (T : Transaction) : TransactionJson :=
  mkTransactionJson (map json (inputs T)) (outputs T) (locktime T).

(** [Input.__init__], whose [id] defaults to 0. *)
Definition Input_init (prev_hash output_index script_sig sequence : bytes)
  (id : option nat) : Input :=
  mkInput (match id with Some k => k | None => 0 end)
    prev_hash output_index script_sig sequence.

(** The default of [version] in [Transaction.__init__]: [b'00000001'],
    eight characters. *)
Definition default_version : bytes := [x30; x30; x30; x30; x30; x30; x30; x31].

(** [Transaction.__init__], whose [locktime] defaults to 0. *)
Definition Transaction_init (inputs : list Input) (outputs : list Output)
  (locktime : option Z) (version : option bytes) : Transaction :=
  mkTransaction inputs outputs
    (match locktime with Some l => l | None => 0%Z end)
    (match version with Some v => v | None => default_version end).

(** ** input_addresses with every return type

    [Key_new h] is [Key(h, compressed=False)]; the two methods are
    [hash160()] and [public_uncompressed()] of the object. *)

Inductive pyaddr : Type :=
| AddrStr (s : string)
| AddrBytes (b : bytes).

(** What the method returns: the list, or one element of it. *)
Inductive addresses : Type :=
| AddrList (l : list pyaddr)
| AddrOne (a : pyaddr).

Section KeyClass.

Variable Key : Type.
Variable Key_new : string -> result Key.
Variable Key_hash160_of : Key -> result string.
Variable Key_public_uncompressed_of : Key -> result string.

Fixpoint input_addresses_any_loop (return_type : string) (ins : list Input)
  (r : list pyaddr) : result (list pyaddr) :=
  match ins with
  | [] => ret r
  | i :: rest =>
      let s := script_sig i in
      l <- index s 0 ;;
      l2 <- index s (l + 1) ;;
      let public_key := hexlify (slice s (l + 2) (l + l2 + 2)) in
      k <- Key_new public_key ;;
      r <- (if String.eqb return_type "hash160" then
              h <- Key_hash160_of k ;; ret (r ++ [AddrStr h])
            else if String.eqb return_type "hex" then
              h <- Key_public_uncompressed_of k ;; ret (r ++ [AddrStr h])
            else if String.eqb return_type "bytes" then
              h <- Key_public_uncompressed_of k ;;
              b <- unhexlify h ;;
              ret (r ++ [AddrBytes b])
            else ret r) ;;
      input_addresses_any_loop return_type rest r
  end.

(** [self.input_addresses(id, return_type)]. *)
Definition input_addresses_any (T : Transaction) (id : option nat)
  (return_type : string) : result addresses :=
  r <- input_addresses_any_loop return_type (inputs T) [] ;;
  match id with
  | None => ret (AddrList r)
  | Some k =>
      match nth_error r k with
      | Some a => ret (AddrOne a)
      | None => raise IndexError
      end
  end.

End KeyClass.

(** ** More definitions used to state properties *)

(** The first input of [ins] whose check does not pass, with what its
    check gave: the checks of the inputs before it pass, its own gives
    [r]. *)
Definition first_failure (check : Input -> result bool) (ins : list Input)
  (r : result bool) : Prop :=
  exists pre i post,
    ins = pre ++ i :: post
    /\ Forall (fun j => check j = inr true) pre
    /\ check i = r.

(** The return types that [input_addresses] knows. *)
Definition known_return_type (return_type : string) : bool :=
  String.eqb return_type "hash160" || String.eqb return_type "hex"
  || String.eqb return_type "bytes".

(** What [struct.pack] accepts of a transaction in the full mode. *)
Definition encodable (T : Transaction) : bool :=
  forallb (fun i => length (script_sig i) <? 256) (inputs T)
  && forallb (fun o => valid_output o && (length (script o) <? 256)) (outputs T)
  && ((0 <=? locktime T) && (locktime T <? 2 ^ 32))%Z.

(** The input as the signing mode for [k] writes it: the script of the
    input whose id is [k] built from its key hash, the others empty. *)
Definition preimage_input (Key_hash160 : string -> result string) (k : nat)
  (i : Input) : Input :=
  mkInput (id i) (prev_hash i) (output_index i)
    (if k =? id i then
       match own_hash160 Key_hash160 i with
       | inr h => [x76; xa9; x14] ++ h ++ [x88; xac]
       | inl _ => []
       end
     else [])
    (sequence i).

(** The key hash of the inputs whose id is [k] has 20 bytes. *)
Definition hash_of_20 (Key_hash160 : string -> result string) (k : nat)
  (T : Transaction) : bool :=
  forallb (fun i =>
             negb (k =? id i)
             || match own_hash160 Key_hash160 i with
                | inr h => length h =? 20
                | inl _ => false
                end)
          (inputs T).

(** ** Sample collaborators and transactions

    Stand-ins with the interfaces of the collaborators, to run the model
    on concrete values.  [Key_hash160] keeps the first 20 bytes of the
    key, the digest is the first 32 bytes of the message, a signature is
    good when it repeats the first byte of the digest. *)
Module Sample.

Definition pad (n : nat) (b : bytes) : bytes := firstn n (b ++ repeat x00 n).

Definition convert_der_sig (s : bytes) : result string := ret (hexlify s).

Definition Key_hash160 (h : string) : result string :=
  b <- unhexlify h ;; ret (hexlify (pad 20 b)).

Definition Key_public_uncompressed (h : string) : result string :=
  b <- unhexlify h ;; ret (hexlify (pad 65 b)).

Definition sha256 (m : bytes) : bytes := pad 32 m.

Definition VerifyingKey : Type := bytes.

Definition VerifyingKey_from_string (b : bytes) : result VerifyingKey :=
  if length b =? 64 then ret b else raise (ExternalError "MalformedPointError").

Definition verify_digest (vk : VerifyingKey) (s d : bytes) : result bool :=
  match s, d with
  | x :: _, y :: _ =>
      if Byte.eqb x y then ret true else raise (ExternalError "BadSignatureError")
  | _, _ => raise (ExternalError "BadSignatureError")
  end.

Definition zeros (n : nat) : bytes := repeat x00 n.

Definition version1 : bytes := [x00; x00; x00; x01].

Definition out1 : Output := mkOutput 1 [x76; xa9].

(** An unlocking script: a one-byte signature [sig] (push length 2, the
    slice [s[1:2]] is the signature), then a 65-byte key. *)
Definition unlocking (sig : byte) : bytes :=
  [x02; sig; x01; x41; x04] ++ zeros 64.

Definition input_with (k : nat) (s : bytes) : Input :=
  mkInput k (zeros 32) (zeros 4) s [xff; xff; xff; xff].

(** One input, one output. *)
Definition tx1 : Transaction :=
  mkTransaction [input_with 0 (unlocking x01)] [out1] 0 version1.

(** No output. *)
Definition tx_no_outputs : Transaction :=
  mkTransaction [input_with 0 (unlocking x01)] [] 0 version1.

(** An unlocking script of 253 bytes. *)
Definition tx253 : Transaction :=
  mkTransaction [input_with 0 (zeros 253)] [out1] 0 version1.

(** An unlocking script of 256 bytes. *)
Definition tx256 : Transaction :=
  mkTransaction [input_with 0 (zeros 256)] [out1] 0 version1.

(** The first input has an empty unlocking script. *)
Definition tx_empty_sig : Transaction :=
  mkTransaction [input_with 0 []; input_with 1 (unlocking x01)] [out1] 0 version1.

(** The second input's signature is the one that fails. *)
Definition tx_second_bad : Transaction :=
  mkTransaction [input_with 0 (unlocking x01); input_with 1 (unlocking x02)]
    [out1] 0 version1.

(** The first input's signature fails, the second input's key has two
    bytes. *)
Definition tx_bad_then_short_key : Transaction :=
  mkTransaction
    [input_with 0 (unlocking x02); input_with 1 [x02; x01; x01; x02; x04; x00]]
    [out1] 0 version1.

(** An unlocking script whose key starts with the byte [k]. *)
Definition unlocking_key (sig k : byte) : bytes :=
  [x02; sig; x01; x41; k] ++ zeros 64.

(** Two inputs with different keys, the ids exchanged. *)
Definition tx_swapped_ids : Transaction :=
  mkTransaction
    [input_with 1 (unlocking_key x01 x04); input_with 0 (unlocking_key x01 x05)]
    [out1] 0 version1.

(** One input whose key has two bytes. *)
Definition tx_short_key : Transaction :=
  mkTransaction [input_with 0 [x02; x01; x01; x02; x04; x00]] [out1] 0 version1.

(** One input, whose signature fails. *)
Definition tx_bad_sig : Transaction :=
  mkTransaction [input_with 0 (unlocking x02)] [out1] 0 version1.

(** Two inputs with different keys, built without an id: both carry the
    default, 0. *)
Definition tx_default_ids : Transaction :=
  Transaction_init
    [Input_init (zeros 32) (zeros 4) (unlocking_key x01 x04) [xff; xff; xff; xff] None;
     Input_init (zeros 32) (zeros 4) (unlocking_key x01 x05) [xff; xff; xff; xff] None]
    [out1] None (Some version1).

(** The raw transaction of the example at the end of the source file and
    the transaction it decodes to. *)
Definition rt : string :=
  "0100000001a3919372c9807d92507289d71bdd38f10682a49c47e50dc0136996b43d8aa54e010000006a47304402201f6e18f4532e14f328bc820cb78c53c57c91b1da9949fecb8cf42318b791fb38022045e78c9e55df1cf3db74bfd52ff2add2b59ba63e068680f0023e6a80ac9f51f401210239a18d586c34e51238a7c9a27a342abfb35e3e4aa5ac6559889db1dab2816e9dfeffffff023ef59804000000001976a914af8e14a2cecd715c363b3a72b55b59a31e2acac988ac90940d00000000001976a914f0d34949650af161e7cb3f0325a1a8833075165088acb7740f00".

Definition tx_main : Transaction :=
  Eval vm_compute in
    match import_raw (PyStr rt) with
    | inr t => t
    | inl _ => tx1
    end.

Definition script_sig_main : bytes :=
  match inputs tx_main with
  | i :: _ => script_sig i
  | [] => []
  end.

(** The [Key] object is the bytes of the key. *)
Definition Key : Type := bytes.

Definition Key_new (h : string) : result Key := unhexlify h.

Definition Key_hash160_of (k : Key) : result string := ret (hexlify (pad 20 k)).

Definition Key_public_uncompressed_of (k : Key) : result string :=
  ret (hexlify (pad 65 k)).

Definition input_addresses_any :=
  input_addresses_any Key Key_new Key_hash160_of Key_public_uncompressed_of.

Definition raw := raw Key_hash160.

Definition verify :=
  verify convert_der_sig Key_hash160 Key_public_uncompressed sha256
    VerifyingKey VerifyingKey_from_string verify_digest.

Definition verify_input :=
  verify_input convert_der_sig Key_hash160 Key_public_uncompressed sha256
    VerifyingKey VerifyingKey_from_string verify_digest.

Definition verify_prepare :=
  verify_prepare convert_der_sig Key_hash160 Key_public_uncompressed sha256
    VerifyingKey VerifyingKey_from_string.

Definition verify_check := verify_check VerifyingKey verify_digest.

Definition parse_script_sig := parse_script_sig convert_der_sig.

End Sample.

(** * Properties *)

(** ** Bytes and little-endian digits *)

Lemma to_N_lt (b : byte) : (Byte.to_N b < 256)%N.
Proof. pose proof (Byte.to_N_bounded b). lia. Qed.

Lemma byte_of_N_to_N (b : byte) : byte_of_N (Byte.to_N b) = b.
Proof.
  unfold byte_of_N.
  rewrite N.mod_small by apply to_N_lt.
  now rewrite Byte.of_to_N.
Qed.

Lemma to_N_byte_of_N (n : N) : Byte.to_N (byte_of_N n) = (n mod 256)%N.
Proof.
  unfold byte_of_N.
  destruct (Byte.of_N (n mod 256)) eqn:E.
  - now apply Byte.to_of_N.
  - apply Byte.of_N_None_iff in E.
    pose proof (N.mod_lt n 256). lia.
Qed.

Lemma to_N_byte_of_N_small (n : N) :
  (n < 256)%N -> Byte.to_N (byte_of_N n) = n.
Proof. intros H. rewrite to_N_byte_of_N. now apply N.mod_small. Qed.

Lemma length_to_le (w : nat) : forall n, length (to_le w n) = w.
Proof. induction w; intros n; simpl; [reflexivity | now rewrite IHw]. Qed.

Lemma from_le_to_le (w : nat) :
  forall n, (n < 256 ^ N.of_nat w)%N -> from_le (to_le w n) = n.
Proof.
  induction w as [| w IH]; intros n H.
  - simpl in *. lia.
  - cbn [to_le from_le].
    rewrite Nat2N.inj_succ, N.pow_succ_r' in H.
    rewrite to_N_byte_of_N, IH.
    + rewrite (N.div_mod n 256) at 3 by lia. lia.
    + apply N.Div0.div_lt_upper_bound. exact H.
Qed.

Lemma change_base_rev (l : bytes) : change_base_256_10 (rev l) = from_le l.
Proof.
  unfold change_base_256_10.
  induction l as [| a l IH]; [reflexivity |].
  cbn [rev from_le]. rewrite fold_left_app. cbn [fold_left].
  rewrite IH. lia.
Qed.

(** ** binascii *)

Lemma hex_value_digit (d : N) : (d < 16)%N -> hex_value (hex_digit d) = Some d.
Proof.
  intros H.
  assert (E : (d = 0 \/ d = 1 \/ d = 2 \/ d = 3 \/ d = 4 \/ d = 5 \/ d = 6 \/ d = 7
               \/ d = 8 \/ d = 9 \/ d = 10 \/ d = 11 \/ d = 12 \/ d = 13 \/ d = 14
               \/ d = 15)%N) by lia.
  repeat (destruct E as [-> | E]; [reflexivity |]). now subst d.
Qed.

(** [unhexlify] reads back what [hexlify] wrote. *)
Lemma unhexlify_hexlify (bs : bytes) : unhexlify (hexlify bs) = inr bs.
Proof.
  induction bs as [| b bs IH]; [reflexivity |].
  cbn [hexlify unhexlify].
  pose proof (to_N_lt b) as Hb.
  rewrite !hex_value_digit.
  - rewrite IH. cbn [bind ret].
    rewrite <- (N.div_mod (Byte.to_N b) 16) by lia.
    now rewrite byte_of_N_to_N.
  - apply N.mod_lt. lia.
  - apply N.Div0.div_lt_upper_bound. exact Hb.
Qed.

(** ** The VarInt codec *)

Lemma varint_literal (n : N) (rest : bytes) :
  (n < 253)%N -> varbyteint_to_int (byte_of_N n :: rest) = inr (n, 1).
Proof.
  intros H. unfold varbyteint_to_int.
  rewrite to_N_byte_of_N_small by lia.
  apply N.ltb_lt in H. now rewrite H.
Qed.

Lemma varint_wide (b : byte) (w : nat) (n : N) (post : bytes) :
  (253 <= Byte.to_N b)%N ->
  (if (Byte.to_N b =? 253)%N then 2 else if (Byte.to_N b =? 254)%N then 4 else 8) = w ->
  (n < 256 ^ N.of_nat w)%N -> w <= 8 ->
  varbyteint_to_int (firstn 9 ((b :: to_le w n) ++ post)) = inr (n, S w).
Proof.
  intros Hb Hw Hn Hw8.
  change (firstn 9 ((b :: to_le w n) ++ post))
    with (b :: firstn 8 (to_le w n ++ post)).
  unfold varbyteint_to_int.
  assert (Hlt : (Byte.to_N b <? 253)%N = false) by (apply N.ltb_ge; exact Hb).
  cbv zeta. rewrite Hlt, Hw.
  assert (Hlen : w <= length (firstn 8 (to_le w n ++ post))).
  { rewrite length_firstn, length_app, length_to_le. lia. }
  assert (Hf : (length (firstn 8 (to_le w n ++ post)) <? w) = false)
    by (apply Nat.ltb_ge; exact Hlen).
  rewrite Hf, firstn_firstn, Nat.min_l by exact Hw8.
  rewrite firstn_app, length_to_le, Nat.sub_diag, firstn_O, app_nil_r.
  rewrite firstn_all2 by (rewrite length_to_le; lia).
  rewrite from_le_to_le by exact Hn.
  now rewrite Nat.add_1_r.
Qed.

(** Decoding what [int_to_varbyteint] wrote, whatever follows it. *)
Lemma varint_roundtrip (n : N) (post : bytes) :
  (n < 2 ^ 64)%N ->
  varbyteint_to_int (firstn 9 (int_to_varbyteint n ++ post))
  = inr (n, length (int_to_varbyteint n)).
Proof.
  intros H. unfold int_to_varbyteint.
  destruct (n <? 253)%N eqn:E1.
  - apply N.ltb_lt in E1.
    change (firstn 9 ([byte_of_N n] ++ post)) with (byte_of_N n :: firstn 8 post).
    now apply varint_literal.
  - destruct (n <? 2 ^ 16)%N eqn:E2; [| destruct (n <? 2 ^ 32)%N eqn:E3].
    + apply N.ltb_lt in E2. cbn [length]. rewrite length_to_le.
      apply varint_wide; [vm_compute; discriminate | reflexivity | exact E2 | lia].
    + apply N.ltb_lt in E3. cbn [length]. rewrite length_to_le.
      apply varint_wide; [vm_compute; discriminate | reflexivity | exact E3 | lia].
    + cbn [length]. rewrite length_to_le.
      apply varint_wide; [vm_compute; discriminate | reflexivity | exact H | lia].
Qed.

(** ** Slices *)

Lemma slice_firstn (s : bytes) (c k : nat) :
  slice s c (c + k) = firstn k (skipn c s).
Proof. unfold slice. now replace (c + k - c) with k by lia. Qed.

Lemma slice_past_end (s : bytes) (a b : nat) : length s <= a -> slice s a b = [].
Proof.
  intros H. unfold slice. rewrite skipn_all2 by exact H.
  now destruct (b - a).
Qed.

Lemma length_slice (s : bytes) (a b : nat) :
  length (slice s a b) = Nat.min (b - a) (length s - a).
Proof. unfold slice. now rewrite length_firstn, length_skipn. Qed.

(** Reading the field [x] that stands at the cursor [c]. *)
Lemma slice_read (s : bytes) (c k : nat) (x y : bytes) :
  skipn c s = x ++ y -> length x = k -> slice s c (c + k) = x.
Proof.
  intros H Hk. rewrite slice_firstn, H, firstn_app, Hk, Nat.sub_diag, firstn_O.
  rewrite app_nil_r. apply firstn_all2. lia.
Qed.

Lemma skipn_advance (s : bytes) (c k : nat) (x y : bytes) :
  skipn c s = x ++ y -> length x = k -> skipn (c + k) s = y.
Proof.
  intros H Hk. rewrite Nat.add_comm, <- skipn_skipn, H, skipn_app, Hk, Nat.sub_diag.
  rewrite skipn_all2 by lia. reflexivity.
Qed.

(** ** Decoding what the full mode wrote *)

Lemma valid_input_widths (i : Input) :
  valid_input i = true ->
  length (prev_hash i) = 32 /\ length (output_index i) = 4 /\ length (sequence i) = 4.
Proof.
  unfold valid_input. rewrite !andb_true_iff, !Nat.eqb_eq. tauto.
Qed.

Lemma parse_input_enc (rawtx : bytes) (c k : nat) (i : Input) (post : bytes) :
  valid_input i = true ->
  length (script_sig i) < 253 ->
  skipn c rawtx = enc_input i ++ post ->
  parse_input rawtx k c
  = inr (mkInput k (prev_hash i) (output_index i) (script_sig i) (sequence i),
         c + length (enc_input i)).
Proof.
  intros Hv Hs Hskip.
  destruct (valid_input_widths i Hv) as (Hph & Hoi & Hsq).
  unfold enc_input in Hskip. rewrite <- !app_assoc in Hskip.
  cbn [app] in Hskip.
  assert (R1 := slice_read rawtx c 32 _ _ Hskip ltac:(now rewrite length_rev)).
  assert (S1 := skipn_advance rawtx c 32 _ _ Hskip ltac:(now rewrite length_rev)).
  assert (R2 := slice_read rawtx _ 4 _ _ S1 ltac:(now rewrite length_rev)).
  assert (S2 := skipn_advance rawtx _ 4 _ _ S1 ltac:(now rewrite length_rev)).
  replace (c + 32 + 4) with (c + 36) in R2, S2 by lia.
  assert (S3 : skipn (c + 36 + 1) rawtx = script_sig i ++ sequence i ++ post).
  { apply (skipn_advance rawtx _ 1 [byte_of_N (N.of_nat (length (script_sig i)))]);
      [exact S2 | reflexivity]. }
  assert (R4 := slice_read rawtx _ _ _ _ S3 eq_refl).
  assert (S4 := skipn_advance rawtx _ _ _ _ S3 eq_refl).
  assert (R5 := slice_read rawtx _ 4 _ _ S4 Hsq).
  unfold parse_input.
  rewrite R1, rev_involutive, Hph. cbn [Nat.eqb].
  rewrite R2, rev_involutive.
  rewrite slice_firstn, S2.
  change (firstn 9 (?b :: ?l)) with (b :: firstn 8 l).
  rewrite varint_literal by lia.
  cbn [bind]. rewrite Nat2N.id, R4, R5.
  unfold ret. do 2 f_equal.
  unfold enc_input. rewrite !length_app. cbn [length].
  rewrite !length_rev, Hph, Hoi, Hsq. lia.
Qed.

Lemma parse_inputs_enc (rawtx : bytes) (ins : list Input) :
  forall (m k c : nat) (acc : list Input) (post : bytes),
    forallb valid_input ins = true ->
    forallb (fun i => length (script_sig i) <? 253) ins = true ->
    skipn c rawtx = concat (map enc_input ins) ++ post ->
    parse_inputs rawtx (length ins + m) k c acc
    = parse_inputs rawtx m (k + length ins)
        (c + length (concat (map enc_input ins))) (acc ++ renumber k ins).
Proof.
  induction ins as [| i ins IH]; intros m k c acc post Hv Hs Hskip.
  - cbn. now rewrite !Nat.add_0_r, app_nil_r.
  - cbn [forallb] in Hv, Hs. apply andb_true_iff in Hv, Hs.
    destruct Hv as [Hv Hvs]. destruct Hs as [Hs Hss].
    apply Nat.ltb_lt in Hs.
    cbn [map concat] in Hskip. rewrite <- app_assoc in Hskip.
    cbn [length Nat.add parse_inputs].
    rewrite (parse_input_enc rawtx c k i _ Hv Hs Hskip). cbn [bind].
    rewrite (IH m (S k) _ _ post Hvs Hss (skipn_advance rawtx _ _ _ _ Hskip eq_refl)).
    cbn [map concat renumber]. rewrite length_app, <- app_assoc. cbn [app].
    f_equal; lia.
Qed.

Lemma valid_output_range (o : Output) :
  valid_output o = true -> (0 <= amount o < 2 ^ 64)%Z.
Proof.
  unfold valid_output. rewrite andb_true_iff, Z.leb_le, Z.ltb_lt. tauto.
Qed.

Lemma parse_output_enc (rawtx : bytes) (c : nat) (o : Output) (post : bytes) :
  valid_output o = true ->
  length (script o) < 253 ->
  skipn c rawtx = enc_output o ++ post ->
  parse_output rawtx c = inr (o, c + length (enc_output o)).
Proof.
  intros Hv Hs Hskip.
  apply valid_output_range in Hv.
  unfold enc_output in Hskip. rewrite <- !app_assoc in Hskip.
  assert (R1 := slice_read rawtx c 8 _ _ Hskip (length_to_le 8 _)).
  assert (S1 := skipn_advance rawtx c 8 _ _ Hskip (length_to_le 8 _)).
  cbn [app] in S1.
  assert (S2 : skipn (c + 8 + 1) rawtx = script o ++ post).
  { apply (skipn_advance rawtx _ 1 [byte_of_N (N.of_nat (length (script o)))]);
      [exact S1 | reflexivity]. }
  assert (R3 := slice_read rawtx _ _ _ _ S2 eq_refl).
  unfold parse_output.
  rewrite R1, change_base_rev, from_le_to_le.
  2:{ change (256 ^ N.of_nat 8)%N with (2 ^ 64)%N. lia. }
  rewrite Z2N.id by lia.
  rewrite slice_firstn, S1.
  change (firstn 9 (?b :: ?l)) with (b :: firstn 8 l).
  rewrite varint_literal by lia.
  cbn [bind]. rewrite Nat2N.id, R3.
  unfold ret. destruct o as [a s]. cbn [amount script]. do 2 f_equal.
  unfold enc_output. cbn [amount script].
  rewrite length_app, length_to_le. cbn [length]. lia.
Qed.

Lemma parse_outputs_enc (rawtx : bytes) (outs : list Output) :
  forall (m c : nat) (acc : list Output) (post : bytes),
    forallb valid_output outs = true ->
    forallb (fun o => length (script o) <? 253) outs = true ->
    skipn c rawtx = concat (map enc_output outs) ++ post ->
    parse_outputs rawtx (length outs + m) c acc
    = parse_outputs rawtx m (c + length (concat (map enc_output outs))) (acc ++ outs).
Proof.
  induction outs as [| o outs IH]; intros m c acc post Hv Hs Hskip.
  - cbn. now rewrite Nat.add_0_r, app_nil_r.
  - cbn [forallb] in Hv, Hs. apply andb_true_iff in Hv, Hs.
    destruct Hv as [Hv Hvs]. destruct Hs as [Hs Hss].
    apply Nat.ltb_lt in Hs.
    cbn [map concat] in Hskip. rewrite <- app_assoc in Hskip.
    cbn [length Nat.add parse_outputs].
    rewrite (parse_output_enc rawtx c o _ Hv Hs Hskip). cbn [bind].
    rewrite (IH m _ _ post Hvs Hss (skipn_advance rawtx _ _ _ _ Hskip eq_refl)).
    cbn [map concat]. rewrite length_app, <- app_assoc. cbn [app].
    f_equal; lia.
Qed.

(** ** [raw] and the layout of the specification *)

Lemma collect_ext_in {A : Type} (f g : A -> result bytes) (l : list A) :
  (forall a, In a l -> f a = g a) -> collect f l = collect g l.
Proof.
  induction l as [| a l IH]; intros H; [reflexivity |].
  cbn [collect]. rewrite (H a (or_introl eq_refl)), IH; [reflexivity |].
  intros b Hb. apply H. now right.
Qed.

Lemma collect_pure {A : Type} (f : A -> result bytes) (g : A -> bytes) (l : list A) :
  (forall a, In a l -> f a = inr (g a)) -> collect f l = inr (concat (map g l)).
Proof.
  induction l as [| a l IH]; intros H; [reflexivity |].
  cbn [collect map concat]. rewrite (H a (or_introl eq_refl)), IH; [reflexivity |].
  intros b Hb. apply H. now right.
Qed.

Section RawLayout.

Variable Key_hash160 : string -> result string.

Lemma raw_inputs_collect (T : Transaction) (sign_id : option nat) (ins : list Input) :
  forall r,
    raw_inputs Key_hash160 T sign_id ins r
    = (x <- collect (fun i =>
              f <- raw_field Key_hash160 T sign_id i ;;
              ret (rev (prev_hash i) ++ rev (output_index i) ++ f ++ sequence i))
            ins ;;
       ret (r ++ x)).
Proof.
  induction ins as [| i ins IH]; intros r.
  - cbn. now rewrite app_nil_r.
  - cbn [raw_inputs collect]. unfold raw_field.
    destruct sign_id as [k |].
    + destruct (k =? id i).
      * destruct (input_addresses Key_hash160 T (id i)) as [e | a]; [reflexivity |].
        cbn [bind]. destruct (unhexlify a) as [e | h]; [reflexivity |].
        cbn [bind ret]. rewrite IH.
        destruct (collect _ ins) as [e | x]; [reflexivity |].
        cbn [bind ret]. f_equal. now rewrite <- !app_assoc.
      * cbn [bind ret]. rewrite IH.
        destruct (collect _ ins) as [e | x]; [reflexivity |].
        cbn [bind ret]. f_equal. now rewrite <- !app_assoc.
    + destruct (pack_B (length (script_sig i))) as [e | p]; [reflexivity |].
      cbn [bind ret]. rewrite IH.
      destruct (collect _ ins) as [e | x]; [reflexivity |].
      cbn [bind ret]. f_equal. now rewrite <- !app_assoc.
Qed.

Lemma raw_outputs_collect (outs : list Output) :
  forall r,
    raw_outputs outs r
    = (x <- collect (fun o =>
              q <- pack_Q (amount o) ;;
              p <- pack_B (length (script o)) ;;
              ret (q ++ p ++ script o))
            outs ;;
       ret (r ++ x)).
Proof.
  induction outs as [| o outs IH]; intros r.
  - cbn. now rewrite app_nil_r.
  - cbn [raw_outputs collect].
    destruct (pack_Q (amount o)) as [e | q]; [reflexivity |].
    cbn [bind]. destruct (pack_B (length (script o))) as [e | p]; [reflexivity |].
    cbn [bind ret]. rewrite IH.
    destruct (collect _ outs) as [e | x]; [reflexivity |].
    cbn [bind ret]. f_equal. now rewrite <- !app_assoc.
Qed.

(** [raw] writes the layout, with its own script fields and the suffix of
    the mode. *)
Lemma raw_layout (T : Transaction) (sign_id : option nat) :
  raw Key_hash160 T sign_id
  = encode_layout T (raw_field Key_hash160 T sign_id)
      (match sign_id with Some _ => sighash_all | None => [] end).
Proof.
  unfold raw, encode_layout.
  rewrite raw_inputs_collect.
  destruct (collect _ (inputs T)) as [e | ins]; [reflexivity |].
  cbn [bind ret]. rewrite raw_outputs_collect.
  destruct (collect _ (outputs T)) as [e | outs]; [reflexivity |].
  cbn [bind ret].
  destruct (pack_L (locktime T)) as [e | l]; [reflexivity |].
  cbn [bind]. destruct sign_id; unfold ret, sighash_all; f_equal;
    rewrite <- ?app_assoc; try reflexivity.
  now rewrite app_nil_r.
Qed.

Lemma raw_full_layout (T : Transaction) :
  raw Key_hash160 T None = encode_layout T full_field [].
Proof. apply raw_layout. Qed.

End RawLayout.

(** ** The round trip of the full mode *)

Lemma length_renumber (ins : list Input) : forall k, length (renumber k ins) = length ins.
Proof. induction ins as [| i ins IH]; intros k; cbn; [reflexivity | now rewrite IH]. Qed.

(** The decoder on the bytes of the full mode, whatever follows them. *)
Lemma deserialize_enc (v : bytes) (ins : list Input) (outs : list Output) (lt : Z)
  (post : bytes) :
  length v = 4 ->
  forallb valid_input ins = true ->
  forallb (fun i => length (script_sig i) <? 253) ins = true ->
  (N.of_nat (length ins) < 2 ^ 64)%N ->
  forallb valid_output outs = true ->
  forallb (fun o => length (script o) <? 253) outs = true ->
  (N.of_nat (length outs) < 2 ^ 64)%N ->
  outs <> [] ->
  (0 <= lt < 2 ^ 32)%Z ->
  deserialize_transaction
    (rev v ++ int_to_varbyteint (N.of_nat (length ins)) ++ concat (map enc_input ins)
     ++ int_to_varbyteint (N.of_nat (length outs)) ++ concat (map enc_output outs)
     ++ to_le 4 (Z.to_N lt) ++ post)
  = inr (renumber 0 ins, outs, lt, v).
Proof.
  intros Hv Hvi Hsi Hni Hvo Hso Hno Hne Hlt.
  set (V1 := int_to_varbyteint (N.of_nat (length ins))).
  set (I := concat (map enc_input ins)).
  set (V2 := int_to_varbyteint (N.of_nat (length outs))).
  set (O := concat (map enc_output outs)).
  set (L := to_le 4 (Z.to_N lt)).
  set (rawtx := rev v ++ V1 ++ I ++ V2 ++ O ++ L ++ post).
  assert (S0 : skipn 0 rawtx = rev v ++ V1 ++ I ++ V2 ++ O ++ L ++ post) by reflexivity.
  assert (Hrv : length (rev v) = 4) by now rewrite length_rev.
  assert (R0 : slice rawtx 0 4 = rev v) by exact (slice_read rawtx 0 4 _ _ S0 Hrv).
  assert (S1 : skipn 4 rawtx = V1 ++ I ++ V2 ++ O ++ L ++ post)
    by exact (skipn_advance rawtx 0 4 _ _ S0 Hrv).
  assert (S2 := skipn_advance rawtx _ _ _ _ S1 eq_refl).
  assert (S3 := skipn_advance rawtx _ _ _ _ S2 eq_refl).
  assert (S4 := skipn_advance rawtx _ _ _ _ S3 eq_refl).
  assert (S5 := skipn_advance rawtx _ _ _ _ S4 eq_refl).
  assert (R5 := slice_read rawtx _ 4 _ _ S5 (length_to_le 4 _)).
  unfold deserialize_transaction.
  change (slice rawtx 4 13) with (slice rawtx 4 (4 + 9)).
  rewrite slice_firstn, S1. unfold V1 at 1. rewrite varint_roundtrip by exact Hni.
  cbn [bind]. fold V1. rewrite Nat2N.id.
  rewrite <- (Nat.add_0_r (length ins)) at 1.
  rewrite (parse_inputs_enc rawtx ins 0 0 _ [] _ Hvi Hsi S2).
  cbn [parse_inputs bind ret app]. fold I.
  rewrite length_renumber, Nat.eqb_refl. cbn [negb].
  rewrite slice_firstn, S3. unfold V2 at 1. rewrite varint_roundtrip by exact Hno.
  cbn [bind]. fold V2. rewrite Nat2N.id.
  rewrite <- (Nat.add_0_r (length outs)) at 1.
  rewrite (parse_outputs_enc rawtx outs 0 _ [] _ Hvo Hso S4).
  cbn [parse_outputs bind ret app]. fold O.
  destruct outs as [| o outs']; [now contradiction Hne |].
  rewrite R5, R0, rev_involutive, change_base_rev. unfold L.
  rewrite from_le_to_le.
  2:{ change (256 ^ N.of_nat 4)%N with (2 ^ 32)%N. lia. }
  rewrite Z2N.id by lia. reflexivity.
Qed.

(** The bytes the full mode writes for a transaction of valid fields
    whose scripts are short. *)
Lemma raw_full_bytes (Key_hash160 : string -> result string) (T : Transaction) :
  valid_fields T = true ->
  short_scripts T = true ->
  raw Key_hash160 T None
  = inr (rev (version T) ++ int_to_varbyteint (N.of_nat (length (inputs T)))
         ++ concat (map enc_input (inputs T))
         ++ int_to_varbyteint (N.of_nat (length (outputs T)))
         ++ concat (map enc_output (outputs T))
         ++ to_le 4 (Z.to_N (locktime T)) ++ []).
Proof.
  intros Hv Hs.
  unfold valid_fields in Hv. unfold short_scripts in Hs.
  repeat (apply andb_true_iff in Hv; destruct Hv as [Hv ?]).
  apply andb_true_iff in Hs. destruct Hs as [Hsi Hso].
  rewrite raw_full_layout. unfold encode_layout.
  rewrite (collect_pure _ enc_input).
  2:{ intros i Hi. unfold pack_B.
      rewrite forallb_forall in Hsi. specialize (Hsi i Hi). apply Nat.ltb_lt in Hsi.
      assert (E : (length (script_sig i) <? 256) = true) by (apply Nat.ltb_lt; lia).
      unfold full_field, pack_B. rewrite E. reflexivity. }
  cbn [bind].
  rewrite (collect_pure _ enc_output).
  2:{ intros o Ho.
      rewrite forallb_forall in Hso. specialize (Hso o Ho). apply Nat.ltb_lt in Hso.
      assert (E : (length (script o) <? 256) = true) by (apply Nat.ltb_lt; lia).
      match goal with Hvo : forallb valid_output _ = true |- _ =>
        rewrite forallb_forall in Hvo; specialize (Hvo o Ho) end.
      unfold pack_Q, pack_B. unfold valid_output in *.
      match goal with Hvo : (_ && _)%bool = true |- _ => rewrite Hvo end.
      rewrite E. reflexivity. }
  cbn [bind]. unfold pack_L.
  match goal with Hl : ((0 <=? locktime T)%Z && _)%bool = true |- _ => rewrite Hl end.
  reflexivity.
Qed.

(** Where the round trip of the full mode holds.  For every transaction
    of valid field values (a 4-byte version, 32-byte previous hashes,
    4-byte output indexes and sequences, amounts below 2^64, a locktime
    below 2^32) that has at least one output and whose unlocking and
    locking scripts are all shorter than 253 bytes, the full mode of
    [raw] returns bytes, and decoding them gives back the version, the
    locktime, every output and every input, the ids reassigned by
    position. *)
Theorem full_mode_roundtrip (Key_hash160 : string -> result string) (T : Transaction) :
  valid_fields T = true ->
  short_scripts T = true ->
  outputs T <> [] ->
  exists rawtx,
    raw Key_hash160 T None = inr rawtx
    /\ import_raw (PyBytes rawtx)
       = inr (mkTransaction (renumber 0 (inputs T)) (outputs T) (locktime T) (version T)).
Proof.
  intros Hv Hs Hne.
  eexists. split; [apply (raw_full_bytes Key_hash160 T Hv Hs) |].
  unfold valid_fields in Hv. unfold short_scripts in Hs.
  repeat (apply andb_true_iff in Hv; destruct Hv as [Hv ?]).
  apply andb_true_iff in Hs. destruct Hs as [Hsi Hso].
  unfold import_raw. cbn [ret bind].
  rewrite deserialize_enc; try assumption.
  - reflexivity.
  - now apply Nat.eqb_eq.
  - now apply N.ltb_lt.
  - now apply N.ltb_lt.
  - match goal with Hl : ((0 <=? locktime T)%Z && _)%bool = true |- _ =>
      apply andb_true_iff in Hl; destruct Hl as [Hl1 Hl2] end.
    apply Z.leb_le in Hl1. apply Z.ltb_lt in Hl2. lia.
Qed.

(** The round trip at the example transaction of the source file. *)
Lemma full_mode_roundtrip_witness :
  valid_fields Sample.tx_main = true
  /\ short_scripts Sample.tx_main = true
  /\ outputs Sample.tx_main <> []
  /\ exists rawtx,
       Sample.raw Sample.tx_main None = inr rawtx
       /\ import_raw (PyBytes rawtx)
          = inr (mkTransaction (renumber 0 (inputs Sample.tx_main))
                   (outputs Sample.tx_main) (locktime Sample.tx_main)
                   (version Sample.tx_main)).
Proof.
  assert (H1 : valid_fields Sample.tx_main = true) by (vm_compute; reflexivity).
  assert (H2 : short_scripts Sample.tx_main = true) by (vm_compute; reflexivity).
  assert (H3 : outputs Sample.tx_main <> []) by (cbn; discriminate).
  split; [exact H1 | split; [exact H2 | split; [exact H3 |]]].
  exact (full_mode_roundtrip Sample.Key_hash160 Sample.tx_main H1 H2 H3).
Defined.

(** A transaction without any output is written by the full mode and
    refused by the decoder. *)
Lemma roundtrip_fails_without_outputs :
  valid_fields Sample.tx_no_outputs = true
  /\ short_scripts Sample.tx_no_outputs = true
  /\ (rawtx <- Sample.raw Sample.tx_no_outputs None ;; import_raw (PyBytes rawtx))
     = inl (TransactionError no_outputs).
Proof. repeat split; vm_compute; reflexivity. Qed.

(** ** The length prefix of a script in the full mode *)

Lemma pack_B_varint (n : nat) :
  pack_B n = inr (int_to_varbyteint (N.of_nat n)) <-> n < 253.
Proof.
  unfold pack_B, int_to_varbyteint. split.
  - intros H. destruct (N.of_nat n <? 253)%N eqn:E; [apply N.ltb_lt in E; lia |].
    destruct (n <? 256); [| discriminate H].
    exfalso.
    destruct (N.of_nat n <? 2 ^ 16)%N; [| destruct (N.of_nat n <? 2 ^ 32)%N];
      cbn in H; discriminate H.
  - intros H.
    assert (E1 : (n <? 256) = true) by (apply Nat.ltb_lt; lia).
    assert (E2 : (N.of_nat n <? 253)%N = true) by (apply N.ltb_lt; lia).
    now rewrite E1, E2.
Qed.

(** The script field of the full mode is the VarInt-prefixed script
    exactly when the script is shorter than 253 bytes. *)
Lemma full_field_varint (i : Input) :
  full_field i = inr (varint_prefixed (script_sig i)) <-> length (script_sig i) < 253.
Proof.
  rewrite <- pack_B_varint. unfold full_field, varint_prefixed. split.
  - destruct (pack_B (length (script_sig i))) as [e | p]; cbn; intros H;
      [discriminate H |].
    injection H as H. apply app_inv_tail in H. now subst p.
  - intros ->. reflexivity.
Qed.

(** C5 at a script of 253 bytes.  The full mode writes the single byte
    0xfd before the script where the VarInt of 253 is 0xfd 0xfd 0x00, and
    the decoder does not read the transaction back. *)
Theorem full_mode_prefix_253 :
  Sample.raw Sample.tx253 None
  = encode_layout Sample.tx253 (fun i => ret (xfd :: script_sig i)) []
  /\ int_to_varbyteint 253 = [xfd; xfd; x00]
  /\ Sample.raw Sample.tx253 None
     <> encode_layout Sample.tx253 (fun i => ret (varint_prefixed (script_sig i))) []
  /\ (rawtx <- Sample.raw Sample.tx253 None ;; import_raw (PyBytes rawtx))
     = inl (TransactionError no_outputs)
  /\ Sample.raw Sample.tx256 None = inl StructError.
Proof.
  repeat split; try (vm_compute; reflexivity).
  intros H. vm_compute in H.
  apply (f_equal (fun r => match r with inr b => length b | inl _ => 0 end)) in H.
  vm_compute in H. discriminate H.
Qed.

(** C1 at an unlocking script of 253 bytes.  The transaction has valid
    field values and one output; the full mode writes it, the length of
    the script as the single byte 0xfd, and the decoder, which reads that
    byte as the head of a 16-bit VarInt, does not give the transaction
    back: it fails, finding no outputs.  At 256 bytes the full mode
    itself raises [struct.error]. *)
Theorem full_mode_roundtrip_253 (Key_hash160 : string -> result string) :
  valid_fields Sample.tx253 = true
  /\ outputs Sample.tx253 <> []
  /\ (exists rawtx,
        raw Key_hash160 Sample.tx253 None = inr rawtx
        /\ import_raw (PyBytes rawtx) = inl (TransactionError no_outputs))
  /\ valid_fields Sample.tx256 = true
  /\ raw Key_hash160 Sample.tx256 None = inl StructError.
Proof.
  split; [vm_compute; reflexivity |].
  split; [cbn; discriminate |].
  split; [eexists; split; vm_compute; reflexivity |].
  split; vm_compute; reflexivity.
Qed.

(** ** The signing mode *)

Section SigningMode.

Variable Key_hash160 : string -> result string.

Lemma input_addresses_loop_step (i : Input) (rest : list Input) (r : list string) :
  input_addresses_loop Key_hash160 (i :: rest) r
  = (h <- hash160_hex Key_hash160 i ;;
     input_addresses_loop Key_hash160 rest (r ++ [h])).
Proof.
  cbn [input_addresses_loop]. unfold hash160_hex.
  destruct (index (script_sig i) 0) as [e | l]; [reflexivity |].
  cbn [bind]. now destruct (index (script_sig i) (l + 1)).
Qed.

(** When every key hash is recovered, the list that [input_addresses]
    builds holds, at each position, the hash of the input at that
    position. *)
Lemma input_addresses_loop_ok (ins : list Input) :
  forall r,
    forallb (fun i => is_ok (hash160_hex Key_hash160 i)) ins = true ->
    exists hs,
      input_addresses_loop Key_hash160 ins r = inr (r ++ hs)
      /\ forall p i, nth_error ins p = Some i ->
           exists a, nth_error hs p = Some a /\ hash160_hex Key_hash160 i = inr a.
Proof.
  induction ins as [| i0 ins IH]; intros r H.
  - exists []. split; [cbn; now rewrite app_nil_r |].
    intros [| p] i Hp; discriminate Hp.
  - cbn [forallb] in H. apply andb_true_iff in H. destruct H as [H0 H].
    destruct (hash160_hex Key_hash160 i0) as [e | a0] eqn:E0; [discriminate H0 |].
    destruct (IH (r ++ [a0]) H) as (hs & Hloop & Hnth).
    exists (a0 :: hs). split.
    + rewrite input_addresses_loop_step, E0. cbn [bind].
      rewrite Hloop, <- app_assoc. reflexivity.
    + intros [| p] i Hp; cbn in Hp.
      * injection Hp as <-. exists a0. now split.
      * now apply Hnth.
Qed.

Lemma positional_nth (T : Transaction) (i : Input) :
  positional_ids T = true -> In i (inputs T) -> nth_error (inputs T) (id i) = Some i.
Proof.
  unfold positional_ids. intros H Hin.
  destruct (list_eq_dec Nat.eq_dec _ _) as [E |]; [clear H | discriminate H].
  destruct (In_nth_error _ _ Hin) as [p Hp].
  assert (Hlt : p < length (inputs T)) by (apply nth_error_Some; congruence).
  assert (Hid : nth_error (map id (inputs T)) p = Some (id i))
    by now apply map_nth_error.
  rewrite E in Hid.
  rewrite (nth_error_nth' _ 0) in Hid by (now rewrite length_seq).
  rewrite seq_nth in Hid by exact Hlt.
  injection Hid as Hid. cbn in Hid. now rewrite <- Hid.
Qed.

(** What [raw] asks of [input_addresses] is the input's own key hash. *)
Lemma input_addresses_own (T : Transaction) (i : Input) :
  positional_ids T = true ->
  keys_recovered Key_hash160 T = true ->
  In i (inputs T) ->
  input_addresses Key_hash160 T (id i) = hash160_hex Key_hash160 i.
Proof.
  intros Hpos Hkeys Hin. unfold input_addresses.
  destruct (input_addresses_loop_ok (inputs T) [] Hkeys) as (hs & Hloop & Hnth).
  rewrite Hloop. cbn [bind app].
  destruct (Hnth _ _ (positional_nth T i Hpos Hin)) as (a & Ha & Hh).
  now rewrite Ha, Hh.
Qed.

Lemma raw_field_sign (T : Transaction) (k : nat) (i : Input) :
  positional_ids T = true ->
  keys_recovered Key_hash160 T = true ->
  In i (inputs T) ->
  raw_field Key_hash160 T (Some k) i = sign_field Key_hash160 k i.
Proof.
  intros Hpos Hkeys Hin. unfold raw_field, sign_field, own_hash160.
  destruct (k =? id i); [| reflexivity].
  rewrite (input_addresses_own T i Hpos Hkeys Hin).
  now destruct (hash160_hex Key_hash160 i).
Qed.

(** C2, as amended.  When the ids of the inputs are their positions and
    the key hash of every input of the transaction can be recovered, the
    signing mode for [k] writes the layout of the full mode, with the
    script field of the input whose id is [k] replaced by 0x19 0x76 0xa9
    0x14, the hash160 of that input's own key, 0x88 0xac (25 bytes behind
    the 0x19 when the hash has 20 bytes), the script field of every other
    input the single byte 0x00, and 0x01 0x00 0x00 0x00 behind the
    locktime. *)
Theorem sign_mode_layout (T : Transaction) (k : nat) :
  positional_ids T = true ->
  keys_recovered Key_hash160 T = true ->
  raw Key_hash160 T (Some k) = encode_layout T (sign_field Key_hash160 k) [x01; x00; x00; x00]
  /\ raw Key_hash160 T None = encode_layout T full_field []
  /\ (forall i h, id i = k -> own_hash160 Key_hash160 i = inr h -> length h = 20 ->
        sign_field Key_hash160 k i = inr (x19 :: x76 :: xa9 :: x14 :: h ++ [x88; xac])
        /\ length (x76 :: xa9 :: x14 :: h ++ [x88; xac]) = 25)
  /\ (forall i, id i <> k -> sign_field Key_hash160 k i = inr [x00]).
Proof.
  intros Hpos Hkeys. split; [| split; [| split]].
  - rewrite raw_layout. unfold encode_layout.
    erewrite collect_ext_in; [reflexivity |].
    intros i Hi. cbv beta. now rewrite (raw_field_sign T k i Hpos Hkeys Hi).
  - apply raw_full_layout.
  - intros i h Hid Hown Hlen. split.
    + unfold sign_field. subst k. rewrite Nat.eqb_refl, Hown. reflexivity.
    + cbn [length]. rewrite length_app, Hlen. reflexivity.
  - intros i Hi. unfold sign_field.
    destruct (k =? id i) eqn:E; [| reflexivity].
    apply Nat.eqb_eq in E. now contradiction Hi.
Qed.

End SigningMode.

(** The signing mode at a transaction of two inputs, for the second. *)
Lemma sign_mode_layout_witness :
  positional_ids Sample.tx_second_bad = true
  /\ keys_recovered Sample.Key_hash160 Sample.tx_second_bad = true
  /\ Sample.raw Sample.tx_second_bad (Some 1)
     = encode_layout Sample.tx_second_bad (sign_field Sample.Key_hash160 1)
         [x01; x00; x00; x00].
Proof.
  assert (H1 : positional_ids Sample.tx_second_bad = true) by (vm_compute; reflexivity).
  assert (H2 : keys_recovered Sample.Key_hash160 Sample.tx_second_bad = true)
    by (vm_compute; reflexivity).
  split; [exact H1 | split; [exact H2 |]].
  exact (proj1 (sign_mode_layout Sample.Key_hash160 Sample.tx_second_bad 1 H1 H2)).
Defined.

(** C2 as stated fails: the second input carries a well-formed unlocking
    script and the id 1, the first an empty one; the signing mode for 1
    does not return the layout with 0x00 for the first input, it raises
    [IndexError], for the key of the first input is looked for as well. *)
Lemma sign_mode_needs_every_key :
  In (Sample.input_with 1 (Sample.unlocking x01)) (inputs Sample.tx_empty_sig)
  /\ is_ok (own_hash160 Sample.Key_hash160 (Sample.input_with 1 (Sample.unlocking x01)))
     = true
  /\ is_ok (encode_layout Sample.tx_empty_sig (sign_field Sample.Key_hash160 1)
              [x01; x00; x00; x00]) = true
  /\ Sample.raw Sample.tx_empty_sig (Some 1) = inl IndexError.
Proof.
  repeat split; try (vm_compute; reflexivity).
  cbn. right. now left.
Qed.

(** The same whatever the key routine is. *)
Lemma sign_mode_empty_script (Key_hash160 : string -> result string) :
  raw Key_hash160 Sample.tx_empty_sig (Some 1) = inl IndexError.
Proof. reflexivity. Qed.

(** With ids that are not the positions, the hash written for the input
    whose id is 1 is the one of the input at position 1. *)
Lemma sign_mode_swapped_ids :
  Sample.raw Sample.tx_swapped_ids (Some 1)
  = encode_layout Sample.tx_swapped_ids
      (fun i =>
         if 1 =? id i
         then ret ([x19; x76; xa9; x14] ++ (x05 :: Sample.zeros 19) ++ [x88; xac])
         else ret [x00])
      [x01; x00; x00; x00]
  /\ own_hash160 Sample.Key_hash160
       (Sample.input_with 1 (Sample.unlocking_key x01 x04))
     = inr (x04 :: Sample.zeros 19).
Proof. split; vm_compute; reflexivity. Qed.

(** ** verify *)

Section Verify.

Variable convert_der_sig : bytes -> result string.
Variable Key_hash160 : string -> result string.
Variable Key_public_uncompressed : string -> result string.
Variable sha256 : bytes -> bytes.
Variable VerifyingKey : Type.
Variable VerifyingKey_from_string : bytes -> result VerifyingKey.
Variable verify_digest : VerifyingKey -> bytes -> bytes -> result bool.

Local Abbreviation verify_input' :=
  (verify_input convert_der_sig Key_hash160 Key_public_uncompressed sha256
     VerifyingKey VerifyingKey_from_string verify_digest).
Local Abbreviation verify_loop' :=
  (verify_loop convert_der_sig Key_hash160 Key_public_uncompressed sha256
     VerifyingKey VerifyingKey_from_string verify_digest).
Local Abbreviation verify' :=
  (verify convert_der_sig Key_hash160 Key_public_uncompressed sha256
     VerifyingKey VerifyingKey_from_string verify_digest).
Local Abbreviation verify_prepare' :=
  (verify_prepare convert_der_sig Key_hash160 Key_public_uncompressed sha256
     VerifyingKey VerifyingKey_from_string).
Local Abbreviation verify_check' := (verify_check VerifyingKey verify_digest).

(** The body of the loop is the part before the [try], whose exceptions
    leave it, followed by the part inside, whose exceptions become
    [False]. *)
Lemma verify_input_split (T : Transaction) (i : Input) :
  verify_input' T i = (x <- verify_prepare' T i ;; ret (is_ok (verify_check' x))).
Proof.
  unfold verify_input, verify_prepare, verify_check.
  destruct (raw Key_hash160 T (Some (id i))) as [e | t]; [reflexivity |].
  cbn [bind].
  destruct (parse_script_sig convert_der_sig (script_sig i)) as [e | [sig pk]];
    [reflexivity |].
  cbn [bind].
  destruct (if length pk =? 33
            then h <- Key_public_uncompressed (hexlify pk) ;; unhexlify h
            else ret pk) as [e | pk']; [reflexivity |].
  cbn [bind].
  destruct (VerifyingKey_from_string (skipn 1 pk')) as [e | vk]; [reflexivity |].
  cbn [bind ret].
  now destruct (s <- unhexlify sig ;; verify_digest vk s (sha256 (sha256 t))).
Qed.

Lemma verify_loop_true (T : Transaction) (ins : list Input) :
  verify_loop' T ins = inr true
  <-> Forall (fun i => verify_input' T i = inr true) ins.
Proof.
  induction ins as [| i ins IH].
  - split; [constructor | reflexivity].
  - cbn [verify_loop].
    destruct (verify_input' T i) as [e | [|]] eqn:E; cbn [bind].
    + split; [discriminate | intros H; inversion H; congruence].
    + rewrite IH. split; [now constructor | intros H; now inversion H].
    + split; [discriminate | intros H; inversion H; congruence].
Qed.

Lemma verify_loop_first (T : Transaction) (pre : list Input) (i : Input)
  (post : list Input) :
  Forall (fun j => verify_input' T j = inr true) pre ->
  verify_loop' T (pre ++ i :: post)
  = (ok <- verify_input' T i ;; if ok then verify_loop' T post else ret false).
Proof.
  induction pre as [| j pre IH]; intros H.
  - reflexivity.
  - inversion H as [| ? ? Hj Hpre]; subst.
    cbn [app verify_loop].
    rewrite Hj. cbn [bind]. now apply IH.
Qed.

(** C4.  [verify] returns true exactly when the check of every input
    passes; and when the checks of the inputs before some input pass and
    its own fails, [verify] returns false whatever the inputs behind it
    are, their checks not being run. *)
Theorem verify_all_or_first_failure (T : Transaction) :
  (verify' T = inr true <-> Forall (fun i => verify_input' T i = inr true) (inputs T))
  /\ (forall pre i post,
        inputs T = pre ++ i :: post ->
        Forall (fun j => verify_input' T j = inr true) pre ->
        verify_input' T i = inr false ->
        verify' T = inr false).
Proof.
  split.
  - apply verify_loop_true.
  - intros pre i post Hin Hpre Hi.
    unfold verify. rewrite Hin.
    rewrite (verify_loop_first T pre i post Hpre), Hi.
    reflexivity.
Qed.

(** C3, as amended.  At the first input whose check does not pass:
    an exception raised inside the [try], by the hexadecimal decoding of
    the signature or by [verify_digest], makes [verify] return false; an
    exception raised before the [try], while the preimage is built, the
    unlocking script is parsed, its signature converted from DER, or the
    public key decompressed or loaded, leaves [verify] as it is. *)
Theorem verify_exceptions (T : Transaction) (pre : list Input) (i : Input)
  (post : list Input) :
  inputs T = pre ++ i :: post ->
  Forall (fun j => verify_input' T j = inr true) pre ->
  (forall x e, verify_prepare' T i = inr x -> verify_check' x = inl e ->
     verify' T = inr false)
  /\ (forall e, verify_prepare' T i = inl e -> verify' T = inl e)
  /\ (forall t e, raw Key_hash160 T (Some (id i)) = inr t ->
        parse_script_sig convert_der_sig (script_sig i) = inl e -> verify' T = inl e)
  /\ (forall t sig pk e, raw Key_hash160 T (Some (id i)) = inr t ->
        parse_script_sig convert_der_sig (script_sig i) = inr (sig, pk) ->
        length pk <> 33 ->
        VerifyingKey_from_string (skipn 1 pk) = inl e -> verify' T = inl e).
Proof.
  intros Hin Hpre.
  assert (Hv : verify' T
               = (ok <- verify_input' T i ;;
                  if ok then verify_loop' T post else ret false)).
  { unfold verify. rewrite Hin.
    apply (verify_loop_first T pre i post Hpre). }
  assert (Hprop : forall e, verify_prepare' T i = inl e -> verify' T = inl e).
  { intros e He. rewrite Hv, verify_input_split, He. reflexivity. }
  split; [| split; [exact Hprop | split]].
  - intros x e Hx He. rewrite Hv, verify_input_split, Hx. cbn [bind ret].
    rewrite He. reflexivity.
  - intros t e Ht He. apply Hprop.
    unfold verify_prepare. rewrite Ht. cbn [bind].
    rewrite He. reflexivity.
  - intros t sig pk e Ht Hp Hlen He. apply Hprop.
    unfold verify_prepare. rewrite Ht. cbn [bind].
    rewrite Hp. cbn [bind].
    apply Nat.eqb_neq in Hlen. rewrite Hlen. cbn [bind ret].
    rewrite He. reflexivity.
Qed.

End Verify.

(** [verify] on two inputs: the first signature fails, the second input
    would raise; false is returned. *)
Lemma verify_all_or_first_failure_witness :
  Sample.verify_input Sample.tx_bad_then_short_key
    (Sample.input_with 1 [x02; x01; x01; x02; x04; x00])
  = inl (ExternalError "MalformedPointError")
  /\ Sample.verify Sample.tx_bad_then_short_key = inr false.
Proof.
  split; [vm_compute; reflexivity |].
  apply (proj2 (verify_all_or_first_failure Sample.convert_der_sig Sample.Key_hash160
                  Sample.Key_public_uncompressed Sample.sha256 Sample.VerifyingKey
                  Sample.VerifyingKey_from_string Sample.verify_digest
                  Sample.tx_bad_then_short_key)
           [] (Sample.input_with 0 (Sample.unlocking x02))
           [Sample.input_with 1 [x02; x01; x01; x02; x04; x00]]).
  - reflexivity.
  - constructor.
  - vm_compute. reflexivity.
Defined.

(** A signature that does not verify: the exception of the check becomes
    false. *)
Lemma verify_exceptions_witness :
  (exists x e,
     Sample.verify_prepare Sample.tx_bad_sig (Sample.input_with 0 (Sample.unlocking x02))
     = inr x
     /\ Sample.verify_check x = inl e)
  /\ Sample.verify Sample.tx_bad_sig = inr false.
Proof.
  split.
  - eexists. eexists. split; vm_compute; reflexivity.
  - eapply (proj1 (verify_exceptions Sample.convert_der_sig Sample.Key_hash160
                     Sample.Key_public_uncompressed Sample.sha256 Sample.VerifyingKey
                     Sample.VerifyingKey_from_string Sample.verify_digest
                     Sample.tx_bad_sig [] (Sample.input_with 0 (Sample.unlocking x02)) []
                     eq_refl (Forall_nil _))).
    + vm_compute. reflexivity.
    + vm_compute. reflexivity.
Defined.

(** C3 as stated fails: an empty unlocking script makes [verify] raise
    [IndexError], and a public key of two bytes makes it raise what the
    key loader raises; neither is reported as false. *)
Lemma verify_propagates_exceptions :
  Sample.verify Sample.tx_empty_sig = inl IndexError
  /\ Sample.verify Sample.tx_short_key = inl (ExternalError "MalformedPointError").
Proof. split; vm_compute; reflexivity. Qed.

(** The first of the two whatever the collaborators are. *)
Lemma verify_empty_script_sig
  (convert_der_sig : bytes -> result string)
  (Key_hash160 Key_public_uncompressed : string -> result string)
  (sha256 : bytes -> bytes) (VerifyingKey : Type)
  (VerifyingKey_from_string : bytes -> result VerifyingKey)
  (verify_digest : VerifyingKey -> bytes -> bytes -> result bool) :
  verify convert_der_sig Key_hash160 Key_public_uncompressed sha256 VerifyingKey
    VerifyingKey_from_string verify_digest Sample.tx_empty_sig
  = inl IndexError.
Proof. reflexivity. Qed.

(** ** parse_script_sig *)

Section ParseScriptSig.

Variable convert_der_sig : bytes -> result string.

(** C7, as amended.  [parse_script_sig] checks no length.  When the
    first push length leaves no byte to read the second from, the call
    raises: what the DER routine raises on the shortened signature, or
    else [IndexError].  When the second push length reaches past the end,
    nothing is raised: the public key returned is the bytes that are
    there, fewer than the length says. *)
Theorem parse_script_sig_lengths (s : bytes) (l : nat) :
  index s 0 = inr l ->
  (length s <= l + 1 ->
     parse_script_sig convert_der_sig s
     = match convert_der_sig (slice s 1 l) with
       | inl e => inl e
       | inr _ => inl IndexError
       end)
  /\ (forall sig l2,
        convert_der_sig (slice s 1 l) = inr sig ->
        index s (l + 1) = inr l2 ->
        parse_script_sig convert_der_sig s = inr (sig, slice s (l + 2) (l + l2 + 2))
        /\ length (slice s (l + 2) (l + l2 + 2)) = Nat.min l2 (length s - (l + 2))).
Proof.
  intros Hl. unfold parse_script_sig. rewrite Hl. cbn [bind]. split.
  - intros Hlen.
    destruct (convert_der_sig (slice s 1 l)) as [e | sig]; [reflexivity |].
    cbn [bind]. unfold index.
    assert (E : nth_error s (l + 1) = None) by (apply nth_error_None; exact Hlen).
    rewrite E. reflexivity.
  - intros sig l2 Hsig Hl2. rewrite Hsig. cbn [bind]. rewrite Hl2. cbn [bind].
    split; [reflexivity |].
    rewrite length_slice. f_equal. lia.
Qed.

End ParseScriptSig.

(** A second push length of 33 before two bytes: the key returned has two
    bytes. *)
Lemma parse_script_sig_lengths_witness :
  push_exceeds [x02; x30; x01; x21; x02; x39] = true
  /\ Sample.parse_script_sig [x02; x30; x01; x21; x02; x39]
     = inr ("30"%string, [x02; x39]).
Proof.
  split; [reflexivity |].
  apply (proj2 (parse_script_sig_lengths Sample.convert_der_sig
                  [x02; x30; x01; x21; x02; x39] 2 eq_refl) "30"%string 33);
    reflexivity.
Defined.

(** C7 as stated fails.  The unlocking script of the example of the
    source file, cut two bytes into its public key: the first push length
    is 0x47 and the signature is there, the second is 0x21 before two
    bytes; the parser returns the signature and a key of two bytes. *)
Lemma parse_script_sig_truncates_key :
  index (firstn 75 Sample.script_sig_main) 0 = inr 71
  /\ index (firstn 75 Sample.script_sig_main) 72 = inr 33
  /\ length (firstn 75 Sample.script_sig_main) = 75
  /\ push_exceeds (firstn 75 Sample.script_sig_main) = true
  /\ Sample.parse_script_sig (firstn 75 Sample.script_sig_main)
     = inr (hexlify (slice Sample.script_sig_main 1 71), [x02; x39]).
Proof. repeat split; vm_compute; reflexivity. Qed.

(** ** The decoder on short buffers *)

Lemma parse_input_no_hash (rawtx : bytes) (i c : nat) :
  length rawtx <= c ->
  parse_input rawtx i c = inl (TransactionError hash_not_found).
Proof.
  intros H. unfold parse_input.
  now rewrite (slice_past_end rawtx c (c + 32) H).
Qed.

Lemma parse_input_partial_hash (rawtx : bytes) (i c : nat) :
  c < length rawtx -> length rawtx <= c + 36 ->
  parse_input rawtx i c = inl (FormatError varint_truncated).
Proof.
  intros H1 H2. unfold parse_input.
  assert (Hn : (length (rev (slice rawtx c (c + 32))) =? 0) = false).
  { apply Nat.eqb_neq. rewrite length_rev, length_slice. lia. }
  rewrite Hn, (slice_past_end rawtx (c + 36) (c + 36 + 9) H2).
  reflexivity.
Qed.

Lemma parse_inputs_app (rawtx : bytes) (k m : nat) :
  forall i c acc,
    parse_inputs rawtx (k + m) i c acc
    = ('(ins, c') <- parse_inputs rawtx k i c acc ;;
       parse_inputs rawtx m (k + i) c' ins).
Proof.
  induction k as [| k IH]; intros i c acc; [reflexivity |].
  cbn [Nat.add parse_inputs].
  destruct (parse_input rawtx i c) as [e | [inp c1]]; [reflexivity |].
  cbn [bind]. rewrite IH. now rewrite Nat.add_succ_r.
Qed.

Lemma parse_inputs_length (rawtx : bytes) (n : nat) :
  forall i c acc ins c',
    parse_inputs rawtx n i c acc = inr (ins, c') -> length ins = length acc + n.
Proof.
  induction n as [| n IH]; intros i c acc ins c' H.
  - cbn in H. injection H as <- _. lia.
  - cbn [parse_inputs] in H.
    destruct (parse_input rawtx i c) as [e | [inp c1]]; [discriminate H |].
    cbn [bind] in H. apply IH in H. rewrite length_app in H. cbn in H. lia.
Qed.

Lemma parse_outputs_length (rawtx : bytes) (n : nat) :
  forall c acc outs c',
    parse_outputs rawtx n c acc = inr (outs, c') -> length outs = length acc + n.
Proof.
  induction n as [| n IH]; intros c acc outs c' H.
  - cbn in H. injection H as <- _. lia.
  - cbn [parse_outputs] in H.
    destruct (parse_output rawtx c) as [e | [out c1]]; [discriminate H |].
    cbn [bind] in H. apply IH in H. rewrite length_app in H. cbn in H. lia.
Qed.

(** The decoder once the count of the inputs is read, on what the loop
    over the inputs returns. *)
Lemma deserialize_unfold (rawtx : bytes) (n : N) (size : nat) :
  varbyteint_to_int (slice rawtx 4 13) = inr (n, size) ->
  deserialize_transaction rawtx
  = ('(inputs, cursor) <- parse_inputs rawtx (N.to_nat n) 0 (4 + size) [] ;;
     if negb (length inputs =? N.to_nat n)
     then raise (TransactionError inputs_mismatch)
     else
       '(n_outputs, size) <- varbyteint_to_int (slice rawtx cursor (cursor + 9)) ;;
       let cursor := cursor + size in
       '(outputs, cursor) <- parse_outputs rawtx (N.to_nat n_outputs) cursor [] ;;
       match outputs with
       | [] => raise (TransactionError no_outputs)
       | _ :: _ =>
           ret (inputs, outputs,
                Z.of_N (change_base_256_10 (rev (slice rawtx cursor (cursor + 4)))),
                rev (slice rawtx 0 4))
       end).
Proof. intros H. unfold deserialize_transaction. now rewrite H. Qed.

(** C6, as amended.  At the place of the previous hash of an input that
    the count announces: when no byte is left there, decoding fails with
    the error of the missing hash; when 1 to 31 bytes are left, decoding
    fails as well, with the error of the VarInt decoder, which finds no
    byte where the length of the script should be. *)
Theorem truncated_hash (rawtx : bytes) (n : N) (size k : nat) (ins : list Input)
  (c : nat) :
  varbyteint_to_int (slice rawtx 4 13) = inr (n, size) ->
  k < N.to_nat n ->
  parse_inputs rawtx k 0 (4 + size) [] = inr (ins, c) ->
  (length rawtx <= c ->
     deserialize_transaction rawtx = inl (TransactionError hash_not_found))
  /\ (c < length rawtx < c + 32 ->
        deserialize_transaction rawtx = inl (FormatError varint_truncated)).
Proof.
  intros Hn Hk Hpre.
  assert (Hsplit : N.to_nat n = k + S (N.to_nat n - S k)) by lia.
  assert (Hd : forall e, parse_input rawtx (k + 0) c = inl e ->
                         deserialize_transaction rawtx = inl e).
  { intros e He. rewrite (deserialize_unfold rawtx n size Hn).
    rewrite Hsplit at 1. rewrite parse_inputs_app, Hpre. cbn [bind parse_inputs].
    rewrite He. reflexivity. }
  split; intros H; apply Hd.
  - now apply parse_input_no_hash.
  - apply parse_input_partial_hash; lia.
Qed.

(** A declared input, five bytes where its hash should be: the VarInt
    error.  Nothing there: the error of the missing hash. *)
Lemma truncated_hash_witness :
  deserialize_transaction [x01; x00; x00; x00; x01]
  = inl (TransactionError hash_not_found)
  /\ deserialize_transaction [x01; x00; x00; x00; x01; xa3; x91; x93; x72; xc9]
     = inl (FormatError varint_truncated).
Proof.
  split.
  - apply (proj1 (truncated_hash [x01; x00; x00; x00; x01] 1 1 0 [] 5
                    eq_refl ltac:(vm_compute; lia) eq_refl)).
    cbn. lia.
  - apply (proj2 (truncated_hash [x01; x00; x00; x00; x01; xa3; x91; x93; x72; xc9]
                    1 1 0 [] 5 eq_refl ltac:(vm_compute; lia) eq_refl)).
    cbn. lia.
Defined.

(** C6 as stated fails: with five bytes of the 32 of the hash present,
    the error is not the one of the missing hash. *)
Lemma partial_hash_other_error :
  deserialize_transaction [x01; x00; x00; x00; x01; xa3; x91; x93; x72; xc9]
  = inl (FormatError varint_truncated)
  /\ FormatError varint_truncated <> TransactionError hash_not_found.
Proof. split; [reflexivity | discriminate]. Qed.

(** ** The counts *)

Lemma varint_error (b : bytes) (e : exn) :
  varbyteint_to_int b = inl e -> e = FormatError varint_truncated.
Proof.
  unfold varbyteint_to_int. destruct b as [| x rest].
  - intros H. now injection H.
  - cbv zeta. destruct (Byte.to_N x <? 253)%N; [discriminate |].
    match goal with |- context [if ?c then raise _ else _] => destruct c end;
      [| discriminate].
    intros H. now injection H.
Qed.

Lemma parse_input_error (rawtx : bytes) (i c : nat) (e : exn) :
  parse_input rawtx i c = inl e -> truncation_error e.
Proof.
  unfold parse_input, truncation_error.
  destruct (length (rev (slice rawtx c (c + 32))) =? 0).
  - intros H. left. now injection H.
  - destruct (varbyteint_to_int _) as [e' | [n size]] eqn:E; cbn [bind].
    + intros H. injection H as <-. right. now apply (varint_error _ _ E).
    + discriminate.
Qed.

(** Past the end of the buffer every further read fails: an input finds
    no hash, the count of the outputs no byte. *)
Lemma parse_inputs_overrun (rawtx : bytes) (n i c : nat) (acc : list Input) :
  length rawtx < c ->
  match parse_inputs rawtx n i c acc with
  | inl e => truncation_error e
  | inr (_, c') => length rawtx < c'
  end.
Proof.
  intros H. destruct n as [| n]; [exact H |].
  cbn [parse_inputs]. rewrite parse_input_no_hash by lia. now left.
Qed.

Lemma parse_inputs_short (rawtx : bytes) (n : nat) :
  forall i c acc,
    full_inputs rawtx n i c < n ->
    match parse_inputs rawtx n i c acc with
    | inl e => truncation_error e
    | inr (_, c') => length rawtx < c'
    end.
Proof.
  induction n as [| n IH]; intros i c acc H; [inversion H |].
  cbn [full_inputs] in H. cbn [parse_inputs].
  destruct (parse_input rawtx i c) as [e | [inp c1]] eqn:E;
    [now apply (parse_input_error rawtx i c) |].
  cbn [bind]. destruct (c1 <=? length rawtx) eqn:E1.
  - apply IH. lia.
  - apply Nat.leb_gt in E1. now apply parse_inputs_overrun.
Qed.

(** C8.  When the count of the inputs is larger than the number of inputs
    that end inside the buffer, decoding fails, with the error of the
    missing hash or with the error of the VarInt decoder. *)
Theorem input_count_exceeds (rawtx : bytes) (n : N) (size : nat) :
  varbyteint_to_int (slice rawtx 4 13) = inr (n, size) ->
  full_inputs rawtx (N.to_nat n) 0 (4 + size) < N.to_nat n ->
  exists e, deserialize_transaction rawtx = inl e /\ truncation_error e.
Proof.
  intros Hn Hfull.
  rewrite (deserialize_unfold rawtx n size Hn).
  pose proof (parse_inputs_short rawtx (N.to_nat n) 0 (4 + size) [] Hfull) as H.
  destruct (parse_inputs rawtx (N.to_nat n) 0 (4 + size) []) as [e | [ins c]] eqn:E.
  - now exists e.
  - cbn [bind].
    rewrite (parse_inputs_length rawtx _ _ _ _ _ _ E). cbn [length Nat.add].
    rewrite Nat.eqb_refl. cbn [negb].
    rewrite (slice_past_end rawtx c (c + 9)) by lia.
    eexists. split; [reflexivity | now right].
Qed.

(** Two inputs declared, the second cut inside its unlocking script. *)
Lemma input_count_exceeds_witness :
  exists e,
    deserialize_transaction
      ([x01; x00; x00; x00; x02] ++ enc_input (Sample.input_with 0 [x51])
       ++ Sample.zeros 36 ++ [x05; x51; x52])
    = inl e
    /\ truncation_error e.
Proof.
  apply (input_count_exceeds _ 2 1); [reflexivity | vm_compute; lia].
Defined.

(** C9.  When the decoder reaches the count of the outputs and reads
    zero, decoding fails with the error that no outputs were found; and a
    successful decoding never returns an empty list of outputs. *)
Theorem zero_outputs_rejected (rawtx : bytes) (n : N) (size : nat)
  (ins : list Input) (c size' : nat) :
  varbyteint_to_int (slice rawtx 4 13) = inr (n, size) ->
  parse_inputs rawtx (N.to_nat n) 0 (4 + size) [] = inr (ins, c) ->
  varbyteint_to_int (slice rawtx c (c + 9)) = inr (0%N, size') ->
  deserialize_transaction rawtx = inl (TransactionError no_outputs)
  /\ (forall rawtx' ins' outs' lt' v',
        deserialize_transaction rawtx' = inr (ins', outs', lt', v') -> outs' <> []).
Proof.
  intros Hn Hins Hout. split.
  - rewrite (deserialize_unfold rawtx n size Hn), Hins. cbn [bind].
    rewrite (parse_inputs_length rawtx _ _ _ _ _ _ Hins). cbn [length Nat.add].
    rewrite Nat.eqb_refl. cbn [negb]. rewrite Hout. reflexivity.
  - clear. intros rawtx ins outs lt v H. unfold deserialize_transaction in H.
    destruct (varbyteint_to_int (slice rawtx 4 13)) as [e | [n size]];
      [discriminate H |].
    cbn [bind] in H.
    destruct (parse_inputs rawtx (N.to_nat n) 0 (4 + size) []) as [e | [ins0 c]];
      [discriminate H |].
    cbn [bind] in H.
    destruct (negb (length ins0 =? N.to_nat n)); [discriminate H |].
    destruct (varbyteint_to_int (slice rawtx c (c + 9))) as [e | [m size']];
      [discriminate H |].
    cbn [bind] in H.
    destruct (parse_outputs rawtx (N.to_nat m) (c + size') []) as [e | [outs0 c']];
      [discriminate H |].
    cbn [bind] in H.
    destruct outs0 as [| o outs0]; [discriminate H |].
    injection H as _ <- _ _. discriminate.
Qed.

(** One input, then the count of the outputs 0. *)
Lemma zero_outputs_rejected_witness :
  deserialize_transaction
    ([x01; x00; x00; x00; x01] ++ enc_input (Sample.input_with 0 [x51])
     ++ [x00; x00; x00; x00; x00])
  = inl (TransactionError no_outputs).
Proof.
  refine (proj1 (zero_outputs_rejected
                   ([x01; x00; x00; x00; x01] ++ enc_input (Sample.input_with 0 [x51])
                    ++ [x00; x00; x00; x00; x00])
                   1 1 [Sample.input_with 0 [x51]] 47 1 _ _ _));
    vm_compute; reflexivity.
Defined.

(** ** No input *)

Section ZeroInputs.

Variable convert_der_sig : bytes -> result string.
Variable Key_hash160 : string -> result string.
Variable Key_public_uncompressed : string -> result string.
Variable sha256 : bytes -> bytes.
Variable VerifyingKey : Type.
Variable VerifyingKey_from_string : bytes -> result VerifyingKey.
Variable verify_digest : VerifyingKey -> bytes -> bytes -> result bool.

(** C10.  The decoder has no check that there are inputs: when the count
    of the inputs is zero and the outputs behind it are read, at least
    one of them, decoding returns a transaction without inputs, and
    [verify] on it returns true, its loop running no turn. *)
Theorem zero_inputs_accepted (rawtx : bytes) (size : nat) (n_outputs : N)
  (size' : nat) (outs : list Output) (c : nat) :
  varbyteint_to_int (slice rawtx 4 13) = inr (0%N, size) ->
  varbyteint_to_int (slice rawtx (4 + size) (4 + size + 9)) = inr (n_outputs, size') ->
  n_outputs <> 0%N ->
  parse_outputs rawtx (N.to_nat n_outputs) (4 + size + size') [] = inr (outs, c) ->
  exists T,
    import_raw (PyBytes rawtx) = inr T
    /\ inputs T = []
    /\ outputs T = outs
    /\ verify convert_der_sig Key_hash160 Key_public_uncompressed sha256 VerifyingKey
         VerifyingKey_from_string verify_digest T
       = inr true.
Proof.
  intros Hn Hm Hm0 Houts.
  assert (Hlen := parse_outputs_length rawtx _ _ _ _ _ Houts).
  destruct outs as [| o outs]; [cbn in Hlen; lia |].
  eexists. split; [| split; [| split]].
  - unfold import_raw. cbn [bind ret].
    rewrite (deserialize_unfold rawtx 0 size Hn).
    cbn [N.to_nat parse_inputs bind ret length Nat.eqb negb].
    rewrite Hm. cbn [bind]. rewrite Houts. cbn [bind ret]. reflexivity.
  - reflexivity.
  - reflexivity.
  - reflexivity.
Qed.

End ZeroInputs.

(** No input and one output. *)
Lemma zero_inputs_accepted_witness :
  exists T,
    import_raw (PyBytes ([x01; x00; x00; x00; x00; x01] ++ enc_output Sample.out1
                         ++ [x00; x00; x00; x00]))
    = inr T
    /\ inputs T = []
    /\ outputs T = [Sample.out1]
    /\ Sample.verify T = inr true.
Proof.
  refine (zero_inputs_accepted Sample.convert_der_sig Sample.Key_hash160
            Sample.Key_public_uncompressed Sample.sha256 Sample.VerifyingKey
            Sample.VerifyingKey_from_string Sample.verify_digest
            ([x01; x00; x00; x00; x00; x01] ++ enc_output Sample.out1
             ++ [x00; x00; x00; x00])
            1 1 1 [Sample.out1] 17 _ _ _ _);
    try (vm_compute; reflexivity).
  discriminate.
Defined.

(** * Further properties of the file *)

(** ** What every decoded transaction satisfies *)

Lemma from_le_bound (bs : bytes) : (from_le bs < 256 ^ N.of_nat (length bs))%N.
Proof.
  induction bs as [| b bs IH].
  - cbn. lia.
  - cbn [from_le length]. rewrite Nat2N.inj_succ, N.pow_succ_r'.
    pose proof (to_N_lt b). lia.
Qed.

Lemma from_le_bound_le (bs : bytes) (w : nat) :
  length bs <= w -> (from_le bs < 256 ^ N.of_nat w)%N.
Proof.
  intros H. pose proof (from_le_bound bs) as Hb.
  apply N.lt_le_trans with (1 := Hb).
  apply N.pow_le_mono_r; lia.
Qed.

Lemma slice_nonempty (s : bytes) (a b : nat) : slice s a b <> [] -> a < length s.
Proof.
  intros H. destruct (Nat.lt_ge_cases a (length s)) as [Hlt | Hge]; [exact Hlt |].
  contradiction H. now apply slice_past_end.
Qed.

(** What a successful read of a VarInt tells. *)
Lemma varint_inr (b : bytes) (n : N) (size : nat) :
  varbyteint_to_int b = inr (n, size) ->
  b <> [] /\ 1 <= size /\ size <= length b /\ (n < 2 ^ 64)%N.
Proof.
  unfold varbyteint_to_int. destruct b as [| x rest]; [discriminate |].
  cbv zeta. destruct (Byte.to_N x <? 253)%N eqn:E.
  - intros H. injection H as <- <-. apply N.ltb_lt in E.
    repeat split; [discriminate | lia | cbn; lia | lia].
  - set (w := if (Byte.to_N x =? 253)%N then 2
              else if (Byte.to_N x =? 254)%N then 4 else 8).
    assert (Hw : w <= 8).
    { unfold w. destruct (Byte.to_N x =? 253)%N; [lia |].
      destruct (Byte.to_N x =? 254)%N; lia. }
    destruct (length rest <? w) eqn:El; [discriminate |].
    apply Nat.ltb_ge in El.
    intros H. injection H as <- <-.
    repeat split; [discriminate | lia | cbn [length]; lia |].
    apply N.lt_le_trans with (256 ^ N.of_nat w)%N.
    + apply from_le_bound_le. rewrite length_firstn. lia.
    + change (2 ^ 64)%N with (256 ^ N.of_nat 8)%N.
      apply N.pow_le_mono_r; lia.
Qed.

Lemma parse_input_inr (rawtx : bytes) (i c : nat) (inp : Input) (c' : nat) :
  parse_input rawtx i c = inr (inp, c') ->
  exists ssz size,
    varbyteint_to_int (slice rawtx (c + 36) (c + 36 + 9)) = inr (ssz, size)
    /\ c' = c + 36 + size + N.to_nat ssz + 4
    /\ inp = mkInput i (rev (slice rawtx c (c + 32)))
               (rev (slice rawtx (c + 32) (c + 36)))
               (slice rawtx (c + 36 + size) (c + 36 + size + N.to_nat ssz))
               (slice rawtx (c + 36 + size + N.to_nat ssz)
                  (c + 36 + size + N.to_nat ssz + 4)).
Proof.
  unfold parse_input.
  destruct (length (rev (slice rawtx c (c + 32))) =? 0); [discriminate |].
  destruct (varbyteint_to_int (slice rawtx (c + 36) (c + 36 + 9)))
    as [e | [ssz size]]; [discriminate |].
  cbn [bind ret]. intros H. injection H as <- <-.
  exists ssz, size. repeat split.
Qed.

(** An input read keeps the loop index as its id and moves the cursor by
    at least 41; when it ends inside the buffer, its fields have their
    full widths. *)
Lemma parse_input_inside (rawtx : bytes) (i c : nat) (inp : Input) (c' : nat) :
  parse_input rawtx i c = inr (inp, c') ->
  id inp = i /\ c + 41 <= c'
  /\ (c' <= length rawtx -> valid_input inp = true).
Proof.
  intros H. destruct (parse_input_inr rawtx i c inp c' H) as (ssz & size & Hv & -> & ->).
  destruct (varint_inr _ _ _ Hv) as (_ & Hs1 & _ & _).
  cbn [id]. repeat split; [lia |].
  intros Hin. unfold valid_input. cbn [prev_hash output_index sequence].
  rewrite !length_rev, !length_slice.
  rewrite !andb_true_iff, !Nat.eqb_eq. lia.
Qed.

Lemma parse_inputs_inr (rawtx : bytes) (n : nat) :
  forall i c acc ins c',
    parse_inputs rawtx n i c acc = inr (ins, c') ->
    exists new,
      ins = acc ++ new /\ length new = n /\ map id new = seq i n
      /\ c + 41 * n <= c'
      /\ (c' <= length rawtx -> forallb valid_input new = true).
Proof.
  induction n as [| n IH]; intros i c acc ins c' H.
  - cbn in H. injection H as <- <-. exists [].
    rewrite app_nil_r. repeat split; cbn; lia.
  - cbn [parse_inputs] in H.
    destruct (parse_input rawtx i c) as [e | [inp c1]] eqn:E; [discriminate H |].
    cbn [bind] in H.
    destruct (parse_input_inside rawtx i c inp c1 E) as (Hid & Hc & Hval).
    destruct (IH _ _ _ _ _ H) as (new & -> & Hlen & Hids & Hc' & Hvals).
    exists (inp :: new). rewrite <- app_assoc. cbn [app length map seq forallb].
    repeat split; [now rewrite Hlen | now rewrite Hid, Hids | lia |].
    intros Hin. rewrite Hval, Hvals by lia. reflexivity.
Qed.

Lemma parse_output_inr (rawtx : bytes) (c : nat) (o : Output) (c' : nat) :
  parse_output rawtx c = inr (o, c') ->
  valid_output o = true /\ c + 9 <= c' /\ c + 8 < length rawtx.
Proof.
  unfold parse_output.
  destruct (varbyteint_to_int (slice rawtx (c + 8) (c + 8 + 9)))
    as [e | [ssz size]] eqn:Hv; [discriminate |].
  cbn [bind ret]. intros H. injection H as <- <-.
  destruct (varint_inr _ _ _ Hv) as (Hne & Hs1 & _ & _).
  apply slice_nonempty in Hne.
  repeat split; [| lia | exact Hne].
  unfold valid_output. cbn [amount]. rewrite change_base_rev.
  pose proof (from_le_bound_le (slice rawtx c (c + 8)) 8) as Hb.
  rewrite length_slice in Hb. specialize (Hb ltac:(lia)).
  change (256 ^ N.of_nat 8)%N with (2 ^ 64)%N in Hb.
  apply andb_true_iff. rewrite Z.leb_le, Z.ltb_lt. lia.
Qed.

Lemma parse_outputs_inr (rawtx : bytes) (n : nat) :
  forall c acc outs c',
    parse_outputs rawtx n c acc = inr (outs, c') ->
    exists new,
      outs = acc ++ new /\ length new = n /\ forallb valid_output new = true
      /\ (0 < n -> c + 8 < length rawtx).
Proof.
  induction n as [| n IH]; intros c acc outs c' H.
  - cbn in H. injection H as <- <-. exists [].
    rewrite app_nil_r. repeat split. lia.
  - cbn [parse_outputs] in H.
    destruct (parse_output rawtx c) as [e | [o c1]] eqn:E; [discriminate H |].
    cbn [bind] in H.
    destruct (parse_output_inr rawtx c o c1 E) as (Hval & _ & Hc).
    destruct (IH _ _ _ _ H) as (new & -> & Hlen & Hvals & _).
    exists (o :: new). rewrite <- app_assoc. cbn [app length forallb].
    repeat split; [now rewrite Hlen | now rewrite Hval, Hvals | intros _; exact Hc].
Qed.

(** What a successful decoding went through. *)
Lemma deserialize_inr (rawtx : bytes) (ins : list Input) (outs : list Output)
  (lt : Z) (v : bytes) :
  deserialize_transaction rawtx = inr (ins, outs, lt, v) ->
  exists n size c m size' c',
    varbyteint_to_int (slice rawtx 4 13) = inr (n, size)
    /\ parse_inputs rawtx (N.to_nat n) 0 (4 + size) [] = inr (ins, c)
    /\ varbyteint_to_int (slice rawtx c (c + 9)) = inr (m, size')
    /\ parse_outputs rawtx (N.to_nat m) (c + size') [] = inr (outs, c')
    /\ outs <> []
    /\ lt = Z.of_N (change_base_256_10 (rev (slice rawtx c' (c' + 4))))
    /\ v = rev (slice rawtx 0 4).
Proof.
  unfold deserialize_transaction. intros H.
  destruct (varbyteint_to_int (slice rawtx 4 13)) as [e | [n size]] eqn:E1;
    [discriminate H |].
  cbn [bind] in H.
  destruct (parse_inputs rawtx (N.to_nat n) 0 (4 + size) []) as [e | [ins0 c]] eqn:E2;
    [discriminate H |].
  cbn [bind] in H.
  destruct (negb (length ins0 =? N.to_nat n)); [discriminate H |].
  destruct (varbyteint_to_int (slice rawtx c (c + 9))) as [e | [m size']] eqn:E3;
    [discriminate H |].
  cbn [bind] in H.
  destruct (parse_outputs rawtx (N.to_nat m) (c + size') []) as [e | [outs0 c']] eqn:E4;
    [discriminate H |].
  cbn [bind] in H.
  destruct outs0 as [| o outs0]; [discriminate H |].
  injection H as <- <- <- <-.
  exists n, size, c, m, size', c'.
  split; [reflexivity |]. split; [exact E2 |]. split; [exact E3 |].
  split; [exact E4 |]. split; [discriminate |]. split; reflexivity.
Qed.

Lemma import_raw_inr (v : pyvalue) (T : Transaction) :
  import_raw v = inr T ->
  exists rawtx,
    deserialize_transaction rawtx = inr (inputs T, outputs T, locktime T, version T).
Proof.
  unfold import_raw. intros H.
  destruct (match v with
            | PyStr s => unhexlify s
            | PyBytes b => ret b
            | PyOther => raise (TransactionError bad_raw_type)
            end) as [e | rawtx]; [discriminate H |].
  cbn [bind] in H. exists rawtx.
  destruct (deserialize_transaction rawtx) as [e | [[[ins outs] lt] ver]];
    [discriminate H |].
  cbn [bind ret] in H. injection H as <-. reflexivity.
Qed.

Lemma positional_ids_seq (T : Transaction) :
  map id (inputs T) = seq 0 (length (inputs T)) -> positional_ids T = true.
Proof.
  intros H. unfold positional_ids.
  now destruct (list_eq_dec Nat.eq_dec (map id (inputs T)) (seq 0 (length (inputs T)))).
Qed.

Lemma deserialize_ids (rawtx : bytes) (ins : list Input) (outs : list Output)
  (lt : Z) (v : bytes) :
  deserialize_transaction rawtx = inr (ins, outs, lt, v) ->
  map id ins = seq 0 (length ins)
  /\ exists size,
       varbyteint_to_int (slice rawtx 4 13) = inr (N.of_nat (length ins), size).
Proof.
  intros H.
  destruct (deserialize_inr _ _ _ _ _ H) as (n & size & c & m & size' & c' & Hn & Hi & _).
  destruct (parse_inputs_inr _ _ _ _ _ _ _ Hi) as (new & Hnew & Hlen & Hids & _).
  cbn [app] in Hnew. subst new. split.
  - now rewrite Hlen.
  - exists size. now rewrite Hlen, N2Nat.id.
Qed.

(** The decoder numbers the inputs by position, from 0, and returns as
    many inputs as the count at the head of the buffer says. *)
Theorem decoded_ids (rawtx : bytes) (ins : list Input) (outs : list Output)
  (lt : Z) (v : bytes) :
  deserialize_transaction rawtx = inr (ins, outs, lt, v) ->
  map id ins = seq 0 (length ins)
  /\ exists size,
       varbyteint_to_int (slice rawtx 4 13) = inr (N.of_nat (length ins), size).
Proof. apply deserialize_ids. Qed.

Lemma decoded_ids_witness :
  map id (inputs Sample.tx_main) = seq 0 (length (inputs Sample.tx_main)).
Proof.
  refine (proj1 (decoded_ids
                   (match unhexlify Sample.rt with inr b => b | inl _ => [] end)
                   (inputs Sample.tx_main) (outputs Sample.tx_main)
                   (locktime Sample.tx_main) (version Sample.tx_main) _)).
  vm_compute. reflexivity.
Defined.

Lemma import_raw_valid_fields (v : pyvalue) (T : Transaction) :
  import_raw v = inr T -> valid_fields T = true.
Proof.
  intros H. destruct (import_raw_inr v T H) as [rawtx Hd].
  destruct (deserialize_inr _ _ _ _ _ Hd)
    as (n & size & c & m & size' & c' & Hn & Hi & Hm & Ho & Hne & Hlt & Hv).
  destruct (parse_inputs_inr _ _ _ _ _ _ _ Hi) as (newi & Hnewi & Hleni & _ & _ & Hvi).
  destruct (parse_outputs_inr _ _ _ _ _ _ Ho) as (newo & Hnewo & Hleno & Hvo & _).
  cbn [app] in Hnewi, Hnewo. subst newi newo.
  destruct (varint_inr _ _ _ Hn) as (Hne4 & _ & _ & Hn64).
  destruct (varint_inr _ _ _ Hm) as (Hnec & _ & _ & Hm64).
  apply slice_nonempty in Hne4, Hnec.
  assert (Hrange : (0 <= locktime T < 2 ^ 32)%Z).
  { rewrite Hlt, change_base_rev.
    pose proof (from_le_bound_le (slice rawtx c' (c' + 4)) 4) as Hb.
    rewrite length_slice in Hb. specialize (Hb ltac:(lia)).
    change (256 ^ N.of_nat 4)%N with (2 ^ 32)%N in Hb. lia. }
  unfold valid_fields. rewrite !andb_true_iff. repeat split.
  - apply Nat.eqb_eq. rewrite Hv, length_rev, length_slice. lia.
  - apply Hvi. lia.
  - exact Hvo.
  - apply Z.leb_le. lia.
  - apply Z.ltb_lt. lia.
  - apply N.ltb_lt. now rewrite Hleni, N2Nat.id.
  - apply N.ltb_lt. now rewrite Hleno, N2Nat.id.
Qed.

(** Every transaction that [import_raw] returns has valid field values:
    a version of 4 bytes, for every input a previous hash of 32 bytes, an
    output index and a sequence of 4 bytes, every amount below 2^64, and
    a locktime below 2^32. *)
Theorem decoded_valid_fields (v : pyvalue) (T : Transaction) :
  import_raw v = inr T -> valid_fields T = true.
Proof. apply import_raw_valid_fields. Qed.

Lemma decoded_valid_fields_witness : valid_fields Sample.tx_main = true.
Proof.
  apply (decoded_valid_fields (PyStr Sample.rt) Sample.tx_main).
  vm_compute. reflexivity.
Defined.

(** A buffer that decodes has at least 15 bytes, and 41 more for every
    input. *)
Theorem decoded_length (rawtx : bytes) (ins : list Input) (outs : list Output)
  (lt : Z) (v : bytes) :
  deserialize_transaction rawtx = inr (ins, outs, lt, v) ->
  15 + 41 * length ins <= length rawtx.
Proof.
  intros H.
  destruct (deserialize_inr _ _ _ _ _ H)
    as (n & size & c & m & size' & c' & Hn & Hi & Hm & Ho & Hne & _).
  destruct (parse_inputs_inr _ _ _ _ _ _ _ Hi) as (newi & Hnewi & Hleni & _ & Hc & _).
  destruct (parse_outputs_inr _ _ _ _ _ _ Ho) as (newo & Hnewo & Hleno & _ & Hfirst).
  cbn [app] in Hnewi, Hnewo. subst newi newo.
  destruct (varint_inr _ _ _ Hn) as (_ & Hs & _ & _).
  destruct (varint_inr _ _ _ Hm) as (_ & Hs' & _ & _).
  assert (Hpos : 0 < N.to_nat m).
  { destruct outs; [now contradiction Hne | cbn in Hleno; lia]. }
  specialize (Hfirst Hpos). lia.
Qed.

Lemma decoded_length_witness :
  15 + 41 * length (inputs Sample.tx_main)
  <= length (match unhexlify Sample.rt with inr b => b | inl _ => [] end).
Proof.
  refine (decoded_length
            (match unhexlify Sample.rt with inr b => b | inl _ => [] end)
            (inputs Sample.tx_main) (outputs Sample.tx_main)
            (locktime Sample.tx_main) (version Sample.tx_main) _).
  vm_compute. reflexivity.
Defined.

Lemma renumber_positional (ins : list Input) :
  forall k, map id ins = seq k (length ins) -> renumber k ins = ins.
Proof.
  induction ins as [| i ins IH]; intros k H; [reflexivity |].
  cbn [map length seq] in H. injection H as Hi Hrest.
  cbn [renumber]. rewrite (IH _ Hrest). destruct i; cbn in *. now subst.
Qed.

(** Decoding, encoding in the full mode and decoding again gives the
    transaction of the first decoding, when every script of it is shorter
    than 253 bytes. *)
Theorem decode_encode_decode (Key_hash160 : string -> result string)
  (v : pyvalue) (T : Transaction) :
  import_raw v = inr T ->
  short_scripts T = true ->
  exists rawtx,
    raw Key_hash160 T None = inr rawtx /\ import_raw (PyBytes rawtx) = inr T.
Proof.
  intros H Hs.
  pose proof (import_raw_valid_fields v T H) as Hv.
  destruct (import_raw_inr v T H) as [raw0 Hd].
  destruct (deserialize_ids _ _ _ _ _ Hd) as [Hids _].
  destruct (deserialize_inr _ _ _ _ _ Hd) as (_ & _ & _ & _ & _ & _ & _ & _ & _ & _ & Hne & _).
  eexists. split; [apply (raw_full_bytes Key_hash160 T Hv Hs) |].
  unfold valid_fields in Hv. unfold short_scripts in Hs.
  repeat (apply andb_true_iff in Hv; destruct Hv as [Hv ?]).
  apply andb_true_iff in Hs. destruct Hs as [Hsi Hso].
  unfold import_raw. cbn [ret bind].
  rewrite deserialize_enc; try assumption.
  - rewrite (renumber_positional _ 0 Hids). now destruct T.
  - now apply Nat.eqb_eq.
  - now apply N.ltb_lt.
  - now apply N.ltb_lt.
  - match goal with Hl : ((0 <=? locktime T)%Z && _)%bool = true |- _ =>
      apply andb_true_iff in Hl; destruct Hl as [Hl1 Hl2] end.
    apply Z.leb_le in Hl1. apply Z.ltb_lt in Hl2. lia.
Qed.

Lemma decode_encode_decode_witness :
  exists rawtx,
    Sample.raw Sample.tx_main None = inr rawtx
    /\ import_raw (PyBytes rawtx) = inr Sample.tx_main.
Proof.
  refine (decode_encode_decode Sample.Key_hash160 (PyStr Sample.rt) Sample.tx_main _ _);
    vm_compute; reflexivity.
Defined.

(** No buffer decodes to a transaction with the default version of the
    constructor: the default has eight bytes, a decoded version four.  So
    a transaction built with the default is not read back from its own
    bytes. *)
Theorem default_version_never_decoded (v : pyvalue) (ins : list Input)
  (outs : list Output) (lt : option Z) :
  import_raw v <> inr (Transaction_init ins outs lt None).
Proof.
  intros H. apply import_raw_valid_fields in H.
  unfold valid_fields in H. repeat (apply andb_true_iff in H; destruct H as [H ?]).
  cbn in H. discriminate H.
Qed.

(** ** What the decoder does not look at *)

Lemma result_inr_eq {A : Type} (x y : A) : @inr exn A x = inr y -> x = y.
Proof. intros H. now injection H. Qed.

Lemma from_le_to_le_mod (w : nat) :
  forall n, from_le (to_le w n) = (n mod 256 ^ N.of_nat w)%N.
Proof.
  induction w as [| w IH]; intros n.
  - cbn. now rewrite N.mod_1_r.
  - cbn [to_le from_le]. rewrite to_N_byte_of_N, IH.
    rewrite Nat2N.inj_succ, N.pow_succ_r'.
    now rewrite N.Div0.mod_mul_r.
Qed.

Lemma firstn_to_le (j : nat) :
  forall w n, j <= w -> firstn j (to_le w n) = to_le j n.
Proof.
  induction j as [| j IH]; intros w n H; [reflexivity |].
  destruct w as [| w]; [lia |].
  cbn [to_le firstn]. rewrite IH by lia. reflexivity.
Qed.

(** The decoder on the bytes of the full mode up to the last output,
    followed by anything: the locktime is read from the first four bytes
    of what follows, or from fewer. *)
Lemma deserialize_enc_tail (v : bytes) (ins : list Input) (outs : list Output)
  (tail : bytes) :
  length v = 4 ->
  forallb valid_input ins = true ->
  forallb (fun i => length (script_sig i) <? 253) ins = true ->
  (N.of_nat (length ins) < 2 ^ 64)%N ->
  forallb valid_output outs = true ->
  forallb (fun o => length (script o) <? 253) outs = true ->
  (N.of_nat (length outs) < 2 ^ 64)%N ->
  outs <> [] ->
  deserialize_transaction
    (rev v ++ int_to_varbyteint (N.of_nat (length ins)) ++ concat (map enc_input ins)
     ++ int_to_varbyteint (N.of_nat (length outs)) ++ concat (map enc_output outs)
     ++ tail)
  = inr (renumber 0 ins, outs, Z.of_N (from_le (firstn 4 tail)), v).
Proof.
  intros Hv Hvi Hsi Hni Hvo Hso Hno Hne.
  set (V1 := int_to_varbyteint (N.of_nat (length ins))).
  set (I := concat (map enc_input ins)).
  set (V2 := int_to_varbyteint (N.of_nat (length outs))).
  set (O := concat (map enc_output outs)).
  set (rawtx := rev v ++ V1 ++ I ++ V2 ++ O ++ tail).
  assert (S0 : skipn 0 rawtx = rev v ++ V1 ++ I ++ V2 ++ O ++ tail) by reflexivity.
  assert (Hrv : length (rev v) = 4) by now rewrite length_rev.
  assert (R0 : slice rawtx 0 4 = rev v) by exact (slice_read rawtx 0 4 _ _ S0 Hrv).
  assert (S1 : skipn 4 rawtx = V1 ++ I ++ V2 ++ O ++ tail)
    by exact (skipn_advance rawtx 0 4 _ _ S0 Hrv).
  assert (S2 := skipn_advance rawtx _ _ _ _ S1 eq_refl).
  assert (S3 := skipn_advance rawtx _ _ _ _ S2 eq_refl).
  assert (S4 := skipn_advance rawtx _ _ _ _ S3 eq_refl).
  assert (S5 := skipn_advance rawtx _ _ _ _ S4 eq_refl).
  unfold deserialize_transaction.
  change (slice rawtx 4 13) with (slice rawtx 4 (4 + 9)).
  rewrite slice_firstn, S1. unfold V1 at 1. rewrite varint_roundtrip by exact Hni.
  cbn [bind]. fold V1. rewrite Nat2N.id.
  rewrite <- (Nat.add_0_r (length ins)) at 1.
  rewrite (parse_inputs_enc rawtx ins 0 0 _ [] _ Hvi Hsi S2).
  cbn [parse_inputs bind ret app]. fold I.
  rewrite length_renumber, Nat.eqb_refl. cbn [negb].
  rewrite slice_firstn, S3. unfold V2 at 1. rewrite varint_roundtrip by exact Hno.
  cbn [bind]. fold V2. rewrite Nat2N.id.
  rewrite <- (Nat.add_0_r (length outs)) at 1.
  rewrite (parse_outputs_enc rawtx outs 0 _ [] _ Hvo Hso S4).
  cbn [parse_outputs bind ret app]. fold O.
  destruct outs as [| o outs']; [now contradiction Hne |].
  rewrite slice_firstn, S5, R0, rev_involutive, change_base_rev. reflexivity.
Qed.

(** The parts of a transaction of valid fields and short scripts that
    the lemma above asks for. *)
Lemma valid_short_parts (T : Transaction) :
  valid_fields T = true ->
  short_scripts T = true ->
  length (version T) = 4
  /\ forallb valid_input (inputs T) = true
  /\ forallb (fun i => length (script_sig i) <? 253) (inputs T) = true
  /\ (N.of_nat (length (inputs T)) < 2 ^ 64)%N
  /\ forallb valid_output (outputs T) = true
  /\ forallb (fun o => length (script o) <? 253) (outputs T) = true
  /\ (N.of_nat (length (outputs T)) < 2 ^ 64)%N
  /\ (0 <= locktime T < 2 ^ 32)%Z.
Proof.
  unfold valid_fields, short_scripts.
  rewrite !andb_true_iff, Nat.eqb_eq, !N.ltb_lt, Z.leb_le, Z.ltb_lt.
  intuition.
Qed.

Lemma import_raw_bytes (rawtx : bytes) :
  import_raw (PyBytes rawtx)
  = ('(inputs, outputs, locktime, version) <- deserialize_transaction rawtx ;;
     ret (mkTransaction inputs outputs locktime version)).
Proof. reflexivity. Qed.

(** Bytes behind the locktime are not looked at: the full encoding of a
    transaction followed by anything decodes as the encoding alone. *)
Theorem trailing_bytes_ignored (Key_hash160 : string -> result string)
  (T : Transaction) (rawtx junk : bytes) :
  valid_fields T = true ->
  short_scripts T = true ->
  outputs T <> [] ->
  raw Key_hash160 T None = inr rawtx ->
  import_raw (PyBytes (rawtx ++ junk)) = import_raw (PyBytes rawtx)
  /\ import_raw (PyBytes rawtx)
     = inr (mkTransaction (renumber 0 (inputs T)) (outputs T) (locktime T) (version T)).
Proof.
  intros Hv Hs Hne Hraw.
  pose proof (raw_full_bytes Key_hash160 T Hv Hs) as Hb.
  pose proof (result_inr_eq _ _ (eq_trans (eq_sym Hraw) Hb)) as Er.
  rewrite Er. clear Er Hb Hraw.
  destruct (valid_short_parts T Hv Hs) as (H1 & H2 & H3 & H4 & H5 & H6 & H7 & H8).
  assert (E : forall post,
             import_raw (PyBytes
               (rev (version T) ++ int_to_varbyteint (N.of_nat (length (inputs T)))
                ++ concat (map enc_input (inputs T))
                ++ int_to_varbyteint (N.of_nat (length (outputs T)))
                ++ concat (map enc_output (outputs T))
                ++ to_le 4 (Z.to_N (locktime T)) ++ post))
             = inr (mkTransaction (renumber 0 (inputs T)) (outputs T) (locktime T)
                      (version T))).
  { intros post. rewrite import_raw_bytes, deserialize_enc by assumption.
    reflexivity. }
  split; [| apply E].
  rewrite (E []). rewrite <- !app_assoc. apply E.
Qed.

Lemma trailing_bytes_ignored_witness :
  import_raw (PyBytes
    ((match unhexlify Sample.rt with inr b => b | inl _ => [] end) ++ [xde; xad]))
  = import_raw (PyBytes (match unhexlify Sample.rt with inr b => b | inl _ => [] end)).
Proof.
  refine (proj1 (trailing_bytes_ignored Sample.Key_hash160 Sample.tx_main
                   (match unhexlify Sample.rt with inr b => b | inl _ => [] end)
                   [xde; xad] _ _ _ _)).
  - vm_compute. reflexivity.
  - vm_compute. reflexivity.
  - cbn. discriminate.
  - vm_compute. reflexivity.
Defined.

(** The locktime is read without a check that its four bytes are there:
    with the last [k] bytes of the full encoding cut off, [k] at most 3,
    decoding returns the transaction with the locktime that the bytes
    left give, the locktime modulo 256^(4-k). *)
Theorem truncated_locktime (Key_hash160 : string -> result string)
  (T : Transaction) (rawtx : bytes) (k : nat) :
  valid_fields T = true ->
  short_scripts T = true ->
  outputs T <> [] ->
  raw Key_hash160 T None = inr rawtx ->
  k <= 3 ->
  import_raw (PyBytes (firstn (length rawtx - k) rawtx))
  = inr (mkTransaction (renumber 0 (inputs T)) (outputs T)
           (locktime T mod 256 ^ Z.of_nat (4 - k)) (version T)).
Proof.
  intros Hv Hs Hne Hraw Hk.
  pose proof (raw_full_bytes Key_hash160 T Hv Hs) as Hb.
  pose proof (result_inr_eq _ _ (eq_trans (eq_sym Hraw) Hb)) as Er.
  rewrite Er. clear Er Hb Hraw.
  destruct (valid_short_parts T Hv Hs) as (H1 & H2 & H3 & H4 & H5 & H6 & H7 & H8).
  rewrite app_nil_r.
  set (L := to_le 4 (Z.to_N (locktime T))).
  rewrite !app_assoc.
  set (P := ((((rev (version T) ++ _) ++ _) ++ _) ++ _)).
  assert (HL : length L = 4) by apply length_to_le.
  rewrite length_app, HL.
  replace (length P + 4 - k) with (length P + (4 - k)) by lia.
  rewrite firstn_app_2. unfold P. rewrite <- !app_assoc.
  rewrite import_raw_bytes, deserialize_enc_tail by assumption.
  cbn [bind ret]. do 2 f_equal.
  rewrite firstn_firstn, Nat.min_r by lia.
  unfold L. rewrite firstn_to_le by lia. rewrite from_le_to_le_mod.
  rewrite N2Z.inj_mod, N2Z.inj_pow, nat_N_Z, Z2N.id by lia. reflexivity.
Qed.

Lemma truncated_locktime_witness :
  import_raw (PyBytes
    (firstn (length (match unhexlify Sample.rt with inr b => b | inl _ => [] end) - 2)
       (match unhexlify Sample.rt with inr b => b | inl _ => [] end)))
  = inr (mkTransaction (renumber 0 (inputs Sample.tx_main)) (outputs Sample.tx_main)
           (locktime Sample.tx_main mod 256 ^ Z.of_nat (4 - 2))
           (version Sample.tx_main)).
Proof.
  refine (truncated_locktime Sample.Key_hash160 Sample.tx_main
            (match unhexlify Sample.rt with inr b => b | inl _ => [] end) 2 _ _ _ _ _).
  - vm_compute. reflexivity.
  - vm_compute. reflexivity.
  - cbn. discriminate.
  - vm_compute. reflexivity.
  - lia.
Defined.

(** ** When the full mode raises *)

Lemma collect_struct_error {A : Type} (f : A -> result bytes) (l : list A) :
  (forall a e, f a = inl e -> e = StructError) ->
  if forallb (fun a => is_ok (f a)) l
  then exists r, collect f l = inr r
  else collect f l = inl StructError.
Proof.
  intros Hf. induction l as [| a l IH].
  - cbn. now eexists.
  - cbn [forallb collect].
    destruct (f a) as [e | x] eqn:E; cbn [is_ok andb bind].
    + now rewrite (Hf a e E).
    + destruct (forallb (fun a => is_ok (f a)) l).
      * destruct IH as [r ->]. cbn. now eexists.
      * now rewrite IH.
Qed.

Lemma forallb_pointwise {A : Type} (f g : A -> bool) (l : list A) :
  (forall a, f a = g a) -> forallb f l = forallb g l.
Proof.
  intros H. induction l as [| a l IH]; [reflexivity |].
  cbn. now rewrite H, IH.
Qed.

Lemma pack_B_error (n : nat) (e : exn) : pack_B n = inl e -> e = StructError.
Proof. unfold pack_B. destruct (n <? 256); [discriminate | now intros [= <-]]. Qed.

Lemma pack_Q_error (n : Z) (e : exn) : pack_Q n = inl e -> e = StructError.
Proof.
  unfold pack_Q. destruct ((0 <=? n)%Z && (n <? 2 ^ 64)%Z);
    [discriminate | now intros [= <-]].
Qed.

(** In the full mode [raw] returns bytes exactly when every script has at
    most 255 bytes, every amount lies in 0 .. 2^64-1 and the locktime in
    0 .. 2^32-1; otherwise it raises [struct.error], and nothing else. *)
Theorem raw_full_encodable (Key_hash160 : string -> result string) (T : Transaction) :
  if encodable T
  then exists rawtx, raw Key_hash160 T None = inr rawtx
  else raw Key_hash160 T None = inl StructError.
Proof.
  rewrite raw_full_layout. unfold encode_layout, encodable.
  set (fi := fun i : Input =>
               f <- full_field i ;;
               ret (rev (prev_hash i) ++ rev (output_index i) ++ f ++ sequence i)).
  set (fo := fun o : Output =>
               q <- pack_Q (amount o) ;;
               p <- pack_B (length (script o)) ;;
               ret (q ++ p ++ script o)).
  assert (Hfi : forall i e, fi i = inl e -> e = StructError).
  { intros i e. unfold fi, full_field.
    destruct (pack_B (length (script_sig i))) as [e' | p] eqn:E; cbn [bind ret].
    - intros [= <-]. now apply (pack_B_error _ _ E).
    - discriminate. }
  assert (Hfo : forall o e, fo o = inl e -> e = StructError).
  { intros o e. unfold fo.
    destruct (pack_Q (amount o)) as [e' | q] eqn:E; cbn [bind ret].
    - intros [= <-]. now apply (pack_Q_error _ _ E).
    - destruct (pack_B (length (script o))) as [e' | p] eqn:E'; cbn [bind ret].
      + intros [= <-]. now apply (pack_B_error _ _ E').
      + discriminate. }
  assert (Ei : forallb (fun i => length (script_sig i) <? 256) (inputs T)
               = forallb (fun i => is_ok (fi i)) (inputs T)).
  { apply forallb_pointwise. intros i. unfold fi, full_field, pack_B.
    now destruct (length (script_sig i) <? 256). }
  assert (Eo : forallb (fun o => valid_output o && (length (script o) <? 256))
                 (outputs T)
               = forallb (fun o => is_ok (fo o)) (outputs T)).
  { apply forallb_pointwise. intros o. unfold fo, pack_Q, pack_B, valid_output.
    destruct ((0 <=? amount o)%Z && (amount o <? 2 ^ 64)%Z); [| reflexivity].
    now destruct (length (script o) <? 256). }
  rewrite Ei, Eo.
  pose proof (collect_struct_error fi (inputs T) Hfi) as Hi.
  pose proof (collect_struct_error fo (outputs T) Hfo) as Ho.
  unfold bytes in *.
  revert Hi. destruct (forallb (fun i => is_ok (fi i)) (inputs T)); intros Hi;
    cbv iota in Hi; cbn [andb].
  2:{ rewrite Hi. reflexivity. }
  destruct Hi as [ri Hi]. rewrite Hi. cbn [bind].
  revert Ho. destruct (forallb (fun o => is_ok (fo o)) (outputs T)); intros Ho;
    cbv iota in Ho; cbn [andb].
  2:{ rewrite Ho. reflexivity. }
  destruct Ho as [ro Ho]. rewrite Ho. cbn [bind].
  unfold pack_L.
  destruct ((0 <=? locktime T)%Z && (locktime T <? 2 ^ 32)%Z); cbn [bind ret].
  - now eexists.
  - reflexivity.
Qed.

(** ** The signing mode when a key is missing, or no input has the id *)

Lemma collect_fails {A : Type} (f : A -> result bytes) (l : list A) (a : A) :
  In a l -> is_ok (f a) = false -> exists e, collect f l = inl e.
Proof.
  induction l as [| b l IH]; intros Hin Ha; [contradiction Hin |].
  cbn [collect]. destruct (f b) as [e | x] eqn:E; [now exists e |].
  cbn [bind]. destruct Hin as [-> | Hin].
  - rewrite E in Ha. discriminate Ha.
  - destruct (IH Hin Ha) as [e ->]. now exists e.
Qed.

Lemma input_addresses_loop_fails (Key_hash160 : string -> result string)
  (ins : list Input) :
  forall r,
    forallb (fun i => is_ok (hash160_hex Key_hash160 i)) ins = false ->
    exists e, input_addresses_loop Key_hash160 ins r = inl e.
Proof.
  induction ins as [| i ins IH]; intros r H; [discriminate H |].
  rewrite input_addresses_loop_step.
  cbn [forallb] in H.
  destruct (hash160_hex Key_hash160 i) as [e | a]; [now exists e |].
  cbn [is_ok andb bind] in *. now apply IH.
Qed.

Lemma raw_sign_fails (Key_hash160 : string -> result string) (T : Transaction)
  (i : Input) :
  keys_recovered Key_hash160 T = false ->
  In i (inputs T) ->
  exists e, raw Key_hash160 T (Some (id i)) = inl e.
Proof.
  intros Hk Hin. rewrite raw_layout. unfold encode_layout.
  destruct (collect_fails
              (fun j =>
                 f <- raw_field Key_hash160 T (Some (id i)) j ;;
                 ret (rev (prev_hash j) ++ rev (output_index j) ++ f ++ sequence j))
              (inputs T) i Hin) as [e He].
  - unfold raw_field, input_addresses. rewrite Nat.eqb_refl.
    destruct (input_addresses_loop_fails Key_hash160 (inputs T) [] Hk) as [e ->].
    reflexivity.
  - exists e. now rewrite He.
Qed.

(** When the key hash of some input cannot be recovered, the signing mode
    raises for every id that an input of the transaction carries. *)
Theorem sign_mode_raises (Key_hash160 : string -> result string) (T : Transaction)
  (k : nat) :
  keys_recovered Key_hash160 T = false ->
  (exists i, In i (inputs T) /\ id i = k) ->
  exists e, raw Key_hash160 T (Some k) = inl e.
Proof.
  intros Hk (i & Hin & <-). now apply raw_sign_fails.
Qed.

Lemma sign_mode_raises_witness :
  exists e, Sample.raw Sample.tx_empty_sig (Some 1) = inl e.
Proof.
  apply (sign_mode_raises Sample.Key_hash160 Sample.tx_empty_sig 1).
  - vm_compute. reflexivity.
  - exists (Sample.input_with 1 (Sample.unlocking x01)). split; [| reflexivity].
    cbn. right. now left.
Defined.

(** For an id that no input carries, the signing mode looks at no
    unlocking script: it writes every script field as the single byte
    0x00, whatever the unlocking scripts hold. *)
Theorem sign_mode_absent_id (Key_hash160 : string -> result string)
  (T : Transaction) (k : nat) :
  (forall i, In i (inputs T) -> id i <> k) ->
  raw Key_hash160 T (Some k)
  = encode_layout T (fun _ => ret [x00]) [x01; x00; x00; x00].
Proof.
  intros H. rewrite raw_layout. unfold encode_layout.
  erewrite collect_ext_in; [reflexivity |].
  intros i Hi. cbv beta. unfold raw_field.
  destruct (k =? id i) eqn:E; [| reflexivity].
  apply Nat.eqb_eq in E. now contradiction (H i Hi).
Qed.

Lemma sign_mode_absent_id_witness :
  Sample.raw Sample.tx_empty_sig (Some 7)
  = encode_layout Sample.tx_empty_sig (fun _ => ret [x00]) [x01; x00; x00; x00].
Proof.
  apply (sign_mode_absent_id Sample.Key_hash160 Sample.tx_empty_sig 7).
  intros i [<- | [<- | []]]; cbn; discriminate.
Defined.

(** ** Decoding a signing preimage *)

Lemma collect_outputs (outs : list Output) :
  forallb valid_output outs = true ->
  forallb (fun o => length (script o) <? 253) outs = true ->
  collect (fun o =>
             q <- pack_Q (amount o) ;;
             p <- pack_B (length (script o)) ;;
             ret (q ++ p ++ script o))
          outs
  = inr (concat (map enc_output outs)).
Proof.
  intros Hv Hs. apply collect_pure. intros o Ho.
  rewrite forallb_forall in Hv, Hs.
  specialize (Hv o Ho). specialize (Hs o Ho). apply Nat.ltb_lt in Hs.
  assert (E : (length (script o) <? 256) = true) by (apply Nat.ltb_lt; lia).
  unfold pack_Q, pack_B. unfold valid_output in Hv. rewrite Hv, E. reflexivity.
Qed.

Lemma positional_ids_true (T : Transaction) :
  positional_ids T = true -> map id (inputs T) = seq 0 (length (inputs T)).
Proof.
  unfold positional_ids.
  destruct (list_eq_dec Nat.eq_dec (map id (inputs T)) (seq 0 (length (inputs T))));
    [trivial | discriminate].
Qed.

Lemma sign_field_enc (Key_hash160 : string -> result string) (k : nat) (i : Input) :
  (negb (k =? id i)
   || match own_hash160 Key_hash160 i with
      | inr h => length h =? 20
      | inl _ => false
      end) = true ->
  (f <- sign_field Key_hash160 k i ;;
   ret (rev (prev_hash i) ++ rev (output_index i) ++ f ++ sequence i))
  = inr (enc_input (preimage_input Key_hash160 k i))
  /\ length (script_sig (preimage_input Key_hash160 k i)) < 253.
Proof.
  unfold sign_field, preimage_input, enc_input.
  cbn [prev_hash output_index script_sig sequence].
  destruct (k =? id i); cbn [negb orb].
  - destruct (own_hash160 Key_hash160 i) as [e | h]; [discriminate |].
    intros Hh. apply Nat.eqb_eq in Hh.
    assert (Hl : length ([x76; xa9; x14] ++ h ++ [x88; xac]) = 25).
    { cbn [app length]. rewrite length_app, Hh. reflexivity. }
    rewrite Hl. split; [reflexivity | lia].
  - intros _. split; [reflexivity | cbn; lia].
Qed.

(** The bytes of the signing mode decode: they are the full encoding of
    the transaction whose unlocking scripts are replaced, the one of the
    input signed by the script built from its key hash and the others by
    the empty script, followed by the four bytes of the hash type, which
    the decoder does not read. *)
Theorem preimage_decodes (Key_hash160 : string -> result string) (T : Transaction)
  (k : nat) :
  valid_fields T = true ->
  positional_ids T = true ->
  keys_recovered Key_hash160 T = true ->
  hash_of_20 Key_hash160 k T = true ->
  forallb (fun o => length (script o) <? 253) (outputs T) = true ->
  outputs T <> [] ->
  exists rawtx,
    raw Key_hash160 T (Some k) = inr rawtx
    /\ import_raw (PyBytes rawtx)
       = inr (mkTransaction (map (preimage_input Key_hash160 k) (inputs T))
                (outputs T) (locktime T) (version T)).
Proof.
  intros Hv Hpos Hkeys Hh Hso Hne.
  unfold valid_fields in Hv.
  rewrite !andb_true_iff, Nat.eqb_eq, !N.ltb_lt, Z.leb_le, Z.ltb_lt in Hv.
  destruct Hv as (((((Hver & Hvi) & Hvo) & Hlt) & Hni) & Hno).
  unfold hash_of_20 in Hh. rewrite forallb_forall in Hh.
  set (ins' := map (preimage_input Key_hash160 k) (inputs T)).
  assert (Hraw : raw Key_hash160 T (Some k)
                 = inr (rev (version T)
                        ++ int_to_varbyteint (N.of_nat (length ins'))
                        ++ concat (map enc_input ins')
                        ++ int_to_varbyteint (N.of_nat (length (outputs T)))
                        ++ concat (map enc_output (outputs T))
                        ++ to_le 4 (Z.to_N (locktime T)) ++ [x01; x00; x00; x00])).
  { rewrite raw_layout. unfold encode_layout.
    rewrite (collect_pure _ (fun i => enc_input (preimage_input Key_hash160 k i))).
    2:{ intros i Hi. rewrite (raw_field_sign Key_hash160 T k i Hpos Hkeys Hi).
        apply (sign_field_enc Key_hash160 k i (Hh i Hi)). }
    cbn [bind]. rewrite (collect_outputs _ Hvo Hso). cbn [bind].
    unfold pack_L.
    assert (El : ((0 <=? locktime T)%Z && (locktime T <? 2 ^ 32)%Z) = true).
    { apply andb_true_iff. rewrite Z.leb_le, Z.ltb_lt. lia. }
    rewrite El. cbn [bind ret]. unfold ins', sighash_all.
    now rewrite length_map, map_map. }
  eexists. split; [exact Hraw |].
  rewrite import_raw_bytes, deserialize_enc; try assumption.
  - cbn [bind ret]. rewrite renumber_positional; [reflexivity |].
    unfold ins'. rewrite map_map, length_map. cbn [preimage_input id].
    now apply positional_ids_true.
  - unfold ins'. rewrite forallb_forall. intros j Hj.
    apply in_map_iff in Hj. destruct Hj as (i & <- & Hi).
    rewrite forallb_forall in Hvi. exact (Hvi i Hi).
  - unfold ins'. rewrite forallb_forall. intros j Hj.
    apply in_map_iff in Hj. destruct Hj as (i & <- & Hi).
    apply Nat.ltb_lt. apply (sign_field_enc Key_hash160 k i (Hh i Hi)).
  - unfold ins'. now rewrite length_map.
Qed.

Lemma preimage_decodes_witness :
  exists rawtx,
    Sample.raw Sample.tx_second_bad (Some 1) = inr rawtx
    /\ import_raw (PyBytes rawtx)
       = inr (mkTransaction
                (map (preimage_input Sample.Key_hash160 1) (inputs Sample.tx_second_bad))
                (outputs Sample.tx_second_bad) (locktime Sample.tx_second_bad)
                (version Sample.tx_second_bad)).
Proof.
  refine (preimage_decodes Sample.Key_hash160 Sample.tx_second_bad 1 _ _ _ _ _ _);
    try (vm_compute; reflexivity).
  cbn. discriminate.
Defined.

(** ** What [verify] returns, and when it raises *)

Section VerifyResults.

Variable convert_der_sig : bytes -> result string.
Variable Key_hash160 : string -> result string.
Variable Key_public_uncompressed : string -> result string.
Variable sha256 : bytes -> bytes.
Variable VerifyingKey : Type.
Variable VerifyingKey_from_string : bytes -> result VerifyingKey.
Variable verify_digest : VerifyingKey -> bytes -> bytes -> result bool.

Local Abbreviation verify_input' :=
  (verify_input convert_der_sig Key_hash160 Key_public_uncompressed sha256
     VerifyingKey VerifyingKey_from_string verify_digest).
Local Abbreviation verify_loop' :=
  (verify_loop convert_der_sig Key_hash160 Key_public_uncompressed sha256
     VerifyingKey VerifyingKey_from_string verify_digest).
Local Abbreviation verify' :=
  (verify convert_der_sig Key_hash160 Key_public_uncompressed sha256
     VerifyingKey VerifyingKey_from_string verify_digest).

Lemma verify_loop_not_true (T : Transaction) (r : result bool) :
  r <> inr true ->
  forall ins, verify_loop' T ins = r <-> first_failure (verify_input' T) ins r.
Proof.
  intros Hr ins. split.
  - induction ins as [| i ins IH]; cbn [verify_loop].
    + intros H. now contradiction Hr.
    + destruct (verify_input' T i) as [e | [|]] eqn:E; cbn [bind].
      * intros <-. exists [], i, ins. repeat split; [constructor | exact E].
      * intros H. destruct (IH H) as (pre & j & post & -> & Hpre & Hj).
        exists (i :: pre), j, post. repeat split; [now constructor | exact Hj].
      * intros <-. exists [], i, ins. repeat split; [constructor | exact E].
  - intros (pre & i & post & -> & Hpre & Hi).
    rewrite (verify_loop_first convert_der_sig Key_hash160 Key_public_uncompressed
               sha256 VerifyingKey VerifyingKey_from_string verify_digest
               T pre i post Hpre), Hi.
    destruct r as [e | [|]]; [reflexivity | now contradiction Hr | reflexivity].
Qed.

(** [verify] returns false exactly when the first input whose check does
    not pass fails it, and raises an exception exactly when the first
    input whose check does not pass raises it. *)
Theorem verify_false_or_raises (T : Transaction) :
  (verify' T = inr false <-> first_failure (verify_input' T) (inputs T) (inr false))
  /\ (forall e,
        verify' T = inl e <-> first_failure (verify_input' T) (inputs T) (inl e)).
Proof.
  split; [| intros e]; apply verify_loop_not_true; discriminate.
Qed.

(** When the key hash of some input cannot be recovered from its
    unlocking script, an empty script for one, [verify] raises: the
    preimage of the first input is not built. *)
Theorem verify_raises_unrecovered (T : Transaction) :
  keys_recovered Key_hash160 T = false ->
  exists e, verify' T = inl e.
Proof.
  intros Hk. unfold verify.
  destruct (inputs T) as [| i rest] eqn:Hin.
  - unfold keys_recovered in Hk. rewrite Hin in Hk. discriminate Hk.
  - destruct (raw_sign_fails Key_hash160 T i Hk) as [e He].
    { rewrite Hin. now left. }
    exists e. cbn [verify_loop]. unfold verify_input. rewrite He. reflexivity.
Qed.

End VerifyResults.

Lemma verify_raises_unrecovered_witness :
  exists e, Sample.verify Sample.tx_empty_sig = inl e.
Proof.
  apply (verify_raises_unrecovered Sample.convert_der_sig Sample.Key_hash160
           Sample.Key_public_uncompressed Sample.sha256 Sample.VerifyingKey
           Sample.VerifyingKey_from_string Sample.verify_digest Sample.tx_empty_sig).
  vm_compute. reflexivity.
Defined.

(** ** The two parsers of the unlocking script *)

(** [parse_script_sig] and [input_addresses] cut the same public key out
    of an unlocking script: the key whose hash stands in the preimage is
    the key that [parse_script_sig] hands to the check. *)
Theorem same_public_key (convert_der_sig : bytes -> result string)
  (Key_hash160 : string -> result string) (i : Input) (sig : string) (pk : bytes) :
  parse_script_sig convert_der_sig (script_sig i) = inr (sig, pk) ->
  hash160_hex Key_hash160 i = Key_hash160 (hexlify pk).
Proof.
  unfold parse_script_sig, hash160_hex.
  destruct (index (script_sig i) 0) as [e | l]; [discriminate |].
  cbn [bind].
  destruct (convert_der_sig (slice (script_sig i) 1 l)) as [e | s]; [discriminate |].
  cbn [bind].
  destruct (index (script_sig i) (l + 1)) as [e | l2]; [discriminate |].
  cbn [bind ret]. intros H. injection H as _ <-. reflexivity.
Qed.

Lemma same_public_key_witness :
  hash160_hex Sample.Key_hash160 (Sample.input_with 0 (Sample.unlocking x01))
  = Sample.Key_hash160 (hexlify (x04 :: Sample.zeros 64)).
Proof.
  apply (same_public_key Sample.convert_der_sig Sample.Key_hash160
           (Sample.input_with 0 (Sample.unlocking x01)) "01"%string).
  vm_compute. reflexivity.
Defined.

(** ** import_raw, json and get *)

(** A raw transaction given as the hexadecimal string of its bytes is
    decoded as the bytes are. *)
Theorem import_raw_hex (b : bytes) :
  import_raw (PyStr (hexlify b)) = import_raw (PyBytes b).
Proof. unfold import_raw. now rewrite unhexlify_hexlify. Qed.

Lemma hexlify_inj (a b : bytes) : hexlify a = hexlify b -> a = b.
Proof.
  intros H. apply (f_equal unhexlify) in H.
  rewrite !unhexlify_hexlify in H. now injection H.
Qed.

Lemma map_json_inj (l1 : list Input) :
  forall l2 k, map json l1 = map json l2 <-> renumber k l1 = renumber k l2.
Proof.
  induction l1 as [| i l1 IH]; intros [| j l2] k; cbn [map renumber];
    try (split; [reflexivity || discriminate | reflexivity || discriminate]).
  split.
  - intros H. unfold json in H. injection H as H1 H2 H3 H4 Hl.
    apply hexlify_inj in H1, H2, H3, H4. rewrite H1, H2, H3, H4.
    f_equal. now apply IH.
  - intros H. injection H as H1 H2 H3 H4 Hl.
    f_equal; [| now apply (IH l2 (S k))].
    unfold json. now rewrite H1, H2, H3, H4.
Qed.

(** [get] shows a transaction up to the ids of its inputs and its
    version: two transactions have the same [get] exactly when they have
    the same inputs once numbered by position, the same outputs and the
    same locktime. *)
Theorem get_shows (T1 T2 : Transaction) :
  get T1 = get T2
  <-> renumber 0 (inputs T1) = renumber 0 (inputs T2)
      /\ outputs T1 = outputs T2 /\ locktime T1 = locktime T2.
Proof.
  unfold get. split.
  - intros H. injection H as Hi Ho Hl.
    repeat split; [now apply map_json_inj | exact Ho | exact Hl].
  - intros (Hi & -> & ->). f_equal. now apply (map_json_inj _ _ 0).
Qed.

(** ** input_addresses *)

Lemma input_addresses_loop_length (Key_hash160 : string -> result string)
  (ins : list Input) :
  forall r r',
    input_addresses_loop Key_hash160 ins r = inr r' ->
    length r' = length r + length ins.
Proof.
  induction ins as [| i ins IH]; intros r r' H.
  - cbn in H. injection H as <-. cbn. lia.
  - rewrite input_addresses_loop_step in H.
    destruct (hash160_hex Key_hash160 i) as [e | a]; [discriminate H |].
    cbn [bind] in H. apply IH in H. rewrite length_app in H. cbn [length] in *. lia.
Qed.

(** The address returned for [k] belongs to the input at position [k] of
    the list, whatever the ids of the inputs are: it is the hash160 of
    the key in that input's unlocking script. *)
Theorem input_addresses_position (Key_hash160 : string -> result string)
  (T : Transaction) (k : nat) (a : string) :
  input_addresses Key_hash160 T k = inr a ->
  exists i, nth_error (inputs T) k = Some i /\ hash160_hex Key_hash160 i = inr a.
Proof.
  unfold input_addresses. intros H.
  destruct (forallb (fun i => is_ok (hash160_hex Key_hash160 i)) (inputs T)) eqn:Hk.
  - destruct (input_addresses_loop_ok Key_hash160 (inputs T) [] Hk)
      as (hs & Hloop & Hnth).
    rewrite Hloop in H. cbn [bind app] in H.
    destruct (nth_error hs k) as [a' |] eqn:Ea; [| discriminate H].
    injection H as ->.
    destruct (nth_error (inputs T) k) as [i |] eqn:Ei.
    + exists i. split; [reflexivity |].
      destruct (Hnth k i Ei) as (a'' & Ha'' & Hh). congruence.
    + exfalso.
      assert (Hlen := input_addresses_loop_length Key_hash160 (inputs T) [] _ Hloop).
      cbn [app length Nat.add] in Hlen.
      apply nth_error_None in Ei.
      assert (Hsome : nth_error hs k <> None) by congruence.
      apply nth_error_Some in Hsome. lia.
  - destruct (input_addresses_loop_fails Key_hash160 (inputs T) [] Hk) as [e He].
    rewrite He in H. discriminate H.
Qed.

Lemma input_addresses_position_witness :
  exists i,
    nth_error (inputs Sample.tx_swapped_ids) 1 = Some i
    /\ hash160_hex Sample.Key_hash160 i
       = inr (hexlify (x05 :: Sample.zeros 19)).
Proof.
  apply (input_addresses_position Sample.Key_hash160 Sample.tx_swapped_ids 1).
  vm_compute. reflexivity.
Defined.

Section KeyClassProperties.

Variable Key : Type.
Variable Key_new : string -> result Key.
Variable Key_hash160_of : Key -> result string.
Variable Key_public_uncompressed_of : Key -> result string.

Local Abbreviation loop_any :=
  (input_addresses_any_loop Key Key_new Key_hash160_of Key_public_uncompressed_of).
Local Abbreviation addresses_any :=
  (input_addresses_any Key Key_new Key_hash160_of Key_public_uncompressed_of).

Lemma input_addresses_any_loop_length (rt : string) (ins : list Input) :
  forall r r',
    loop_any rt ins r = inr r' ->
    length r' = length r + (if known_return_type rt then length ins else 0).
Proof.
  unfold known_return_type.
  destruct (String.eqb rt "hash160") eqn:E1;
    [| destruct (String.eqb rt "hex") eqn:E2;
       [| destruct (String.eqb rt "bytes") eqn:E3]];
    cbn [orb];
    (induction ins as [| i ins IH]; intros r r' H;
     [ cbn in H; injection H as <-; cbn [length]; lia
     | cbn [input_addresses_any_loop] in H;
       rewrite ?E1, ?E2, ?E3 in H;
       destruct (index (script_sig i) 0) as [e | l]; [discriminate H |];
       cbn [bind] in H;
       destruct (index (script_sig i) (l + 1)) as [e | l2]; [discriminate H |];
       cbn [bind] in H;
       destruct (Key_new _) as [e | key]; [discriminate H |];
       cbn [bind] in H ]).
  - destruct (Key_hash160_of key) as [e | h]; [discriminate H |].
    cbn [bind ret] in H. apply IH in H. rewrite length_app in H.
    cbn [length] in *. lia.
  - destruct (Key_public_uncompressed_of key) as [e | h]; [discriminate H |].
    cbn [bind ret] in H. apply IH in H. rewrite length_app in H.
    cbn [length] in *. lia.
  - destruct (Key_public_uncompressed_of key) as [e | h]; [discriminate H |].
    cbn [bind] in H. destruct (unhexlify h) as [e | b]; [discriminate H |].
    cbn [bind ret] in H. apply IH in H. rewrite length_app in H.
    cbn [length] in *. lia.
  - cbn [bind ret] in H. apply IH in H. lia.
Qed.

(** Without an id, [input_addresses] returns a list with one address for
    every input when the return type is 'hash160', 'hex' or 'bytes', and
    the empty list for any other return type. *)
Theorem input_addresses_any_list (T : Transaction) (rt : string) (a : addresses) :
  addresses_any T None rt = inr a ->
  exists l,
    a = AddrList l
    /\ length l = if known_return_type rt then length (inputs T) else 0.
Proof.
  unfold input_addresses_any. intros H.
  destruct (loop_any rt (inputs T) []) as [e | r] eqn:E; [discriminate H |].
  cbn [bind ret] in H. injection H as <-. exists r. split; [reflexivity |].
  now rewrite (input_addresses_any_loop_length rt (inputs T) [] r E).
Qed.

(** With an id, [input_addresses] returns only for a known return type
    and an id below the number of inputs; in every other case it raises. *)
Theorem input_addresses_any_index (T : Transaction) (k : nat) (rt : string)
  (a : addresses) :
  addresses_any T (Some k) rt = inr a ->
  known_return_type rt = true /\ k < length (inputs T).
Proof.
  unfold input_addresses_any. intros H.
  destruct (loop_any rt (inputs T) []) as [e | r] eqn:E; [discriminate H |].
  cbn [bind] in H.
  destruct (nth_error r k) as [x |] eqn:Ex; [| discriminate H].
  assert (Hk : k < length r) by (apply nth_error_Some; congruence).
  rewrite (input_addresses_any_loop_length rt (inputs T) [] r E) in Hk.
  cbn [length Nat.add] in Hk.
  destruct (known_return_type rt); [split; [reflexivity | exact Hk] | lia].
Qed.

End KeyClassProperties.

Lemma input_addresses_any_list_witness :
  exists l,
    AddrList [AddrBytes (Sample.pad 65 (x04 :: Sample.zeros 64));
              AddrBytes (Sample.pad 65 (x04 :: Sample.zeros 64))]
    = AddrList l
    /\ length l = if known_return_type "bytes"
                  then length (inputs Sample.tx_second_bad) else 0.
Proof.
  apply (input_addresses_any_list Sample.Key Sample.Key_new Sample.Key_hash160_of
           Sample.Key_public_uncompressed_of Sample.tx_second_bad "bytes").
  vm_compute. reflexivity.
Defined.

Lemma input_addresses_any_index_witness :
  known_return_type "hex" = true /\ 1 < length (inputs Sample.tx_second_bad).
Proof.
  apply (input_addresses_any_index Sample.Key Sample.Key_new Sample.Key_hash160_of
           Sample.Key_public_uncompressed_of Sample.tx_second_bad 1 "hex"
           (AddrOne (AddrStr (hexlify (Sample.pad 65 (x04 :: Sample.zeros 64)))))).
  vm_compute. reflexivity.
Defined.

(** ** The signing mode goes by position *)

(** The script written for every input whose id is [k] is built from the
    key of the input at position [k] of the list, the input's own only
    when its id is its position. *)
Theorem sign_mode_by_position (Key_hash160 : string -> result string)
  (T : Transaction) (k : nat) (ik : Input) :
  keys_recovered Key_hash160 T = true ->
  nth_error (inputs T) k = Some ik ->
  raw Key_hash160 T (Some k)
  = encode_layout T
      (fun i =>
         if k =? id i then
           h <- own_hash160 Key_hash160 ik ;;
           ret ([x19; x76; xa9; x14] ++ h ++ [x88; xac])
         else ret [x00])
      [x01; x00; x00; x00].
Proof.
  intros Hkeys Hk. rewrite raw_layout. unfold encode_layout.
  erewrite collect_ext_in; [reflexivity |].
  intros i Hi. cbv beta. unfold raw_field, own_hash160.
  destruct (k =? id i) eqn:E; [| reflexivity].
  apply Nat.eqb_eq in E. rewrite <- E. unfold input_addresses.
  destruct (input_addresses_loop_ok Key_hash160 (inputs T) [] Hkeys)
    as (hs & Hloop & Hnth).
  rewrite Hloop. cbn [bind app].
  destruct (Hnth k ik Hk) as (a & Ha & Hh). rewrite Ha, Hh. reflexivity.
Qed.

(** Two inputs built with the default id: signing for 0 writes the
    script of the first input's key for both. *)
Lemma sign_mode_by_position_witness :
  Sample.raw Sample.tx_default_ids (Some 0)
  = encode_layout Sample.tx_default_ids
      (fun _ => ret ([x19; x76; xa9; x14] ++ (x04 :: Sample.zeros 19) ++ [x88; xac]))
      [x01; x00; x00; x00].
Proof.
  unfold Sample.raw.
  rewrite (sign_mode_by_position Sample.Key_hash160 Sample.tx_default_ids 0
             (Input_init (Sample.zeros 32) (Sample.zeros 4)
                (Sample.unlocking_key x01 x04) [xff; xff; xff; xff] None));
    vm_compute; reflexivity.
Defined.

(** With the return type 'hash160' and an id, the method with every
    return type is the function that [raw] calls. *)
Lemma input_addresses_any_hash160 (Key : Type) (Key_new : string -> result Key)
  (Key_hash160_of Key_public_uncompressed_of : Key -> result string)
  (T : Transaction) (k : nat) :
  input_addresses_any Key Key_new Key_hash160_of Key_public_uncompressed_of
    T (Some k) "hash160"
  = (a <- input_addresses (fun h => key <- Key_new h ;; Key_hash160_of key) T k ;;
     ret (AddrOne (AddrStr a))).
Proof.
  unfold input_addresses_any, input_addresses.
  assert (Hloop : forall ins r,
             input_addresses_any_loop Key Key_new Key_hash160_of
               Key_public_uncompressed_of "hash160" ins (map AddrStr r)
             = (r' <- input_addresses_loop
                        (fun h => key <- Key_new h ;; Key_hash160_of key) ins r ;;
                ret (map AddrStr r'))).
  { induction ins as [| i ins IH]; intros r; [reflexivity |].
    cbn [input_addresses_any_loop input_addresses_loop].
    destruct (index (script_sig i) 0) as [e | l]; [reflexivity |].
    cbn [bind]. destruct (index (script_sig i) (l + 1)) as [e | l2]; [reflexivity |].
    cbn [bind]. destruct (Key_new _) as [e | key]; [reflexivity |].
    cbn [bind String.eqb Ascii.eqb Bool.eqb andb].
    destruct (Key_hash160_of key) as [e | h]; [reflexivity |].
    cbn [bind ret]. rewrite <- IH. now rewrite map_app. }
  pose proof (Hloop (inputs T) []) as HL. cbn [map] in HL. rewrite HL.
  destruct (input_addresses_loop _ (inputs T) []) as [e | r]; [reflexivity |].
  cbn [bind ret]. rewrite nth_error_map.
  now destruct (nth_error r k).
Qed.
